(** * shaall: chunk planning for dd and streaming SHA-256

    A shallow embedding of [shaall.py].  The program is Python 2 code (it
    imports [print_function] from [__future__], its doctests print
    dictionaries in Python 2 key order and integer block sizes after
    [blocksize /= 2]), so [/] on integers is floor division and integers
    are unbounded: they are modelled by [Z].

    Three things lie outside the program text and are taken as interfaces:
    - the value of [int(math.log(x, 2))], computed in floating point by the
      C library ([MathLib]);
    - the incremental hash object of [hashlib] ([Hashlib]);
    - the [dd] process started for each chunk ([DdTool]). *)

From Stdlib Require Import ZArith List Lia Bool String Sorted.
From Stdlib Require Import Strings.Byte.
From Equations Require Import Equations.
Import ListNotations.
Open Scope Z_scope.

(** ** Exceptions and results *)

(** The exceptions the program can end with: the two raised by the
    interpreter ([math.log] outside its domain, division by zero) and the
    one the program raises itself, with its message. *)
Inductive exn : Type :=
| ValueError
| ZeroDivisionError
| Exception (msg : string).

Inductive result (A : Type) : Type :=
| Return (a : A)
| Raise (e : exn).
Arguments Return {A} a.
Arguments Raise {A} e.

Definition bind {A B : Type} (m : result A) (k : A -> result B) : result B :=
  match m with
  | Return a => k a
  | Raise e => Raise e
  end.

Notation "x <- m ;; k" := (bind m (fun x => k))
  (at level 61, m at next level, right associativity).

Definition not_a_power_of_2 : exn := Exception "Block size must be a power of 2".

(** ** isPowerOf2 *)

(** [int(math.log(x, 2))] for a positive integer [x]: the floating-point
    logarithm truncated to an integer.  Its value is fixed by the C library,
    not by the program. *)
Class MathLib : Type := { int_log2 : Z -> Z }.

(** [2**log == x] for integers: with a negative exponent Python 2 yields a
    float strictly between 0 and 1 (or 0.0), which equals no positive
    integer. *)
Definition pow2_equals (log x : Z) : bool :=
  if 0 <=? log then 2 ^ log =? x else false.

(** [math.log] raises [ValueError] on zero and on negative numbers. *)
Definition isPowerOf2 `{MathLib} (x : Z) : result bool :=
  if x <=? 0 then Raise ValueError
  else
    let log := int_log2 x in
    Return (pow2_equals log x).

(** ** listBounds *)

(** One chunk, the arguments of one [dd] run: [skip] and [count] are in
    units of [bs] bytes. *)
Record bound : Type := { skip : Z; count : Z; bs : Z }.

(** The variables of the [while] loop. *)
Record loop_state : Type :=
  { st_ret : list bound; st_bytes_left : Z; st_blocksize : Z }.

Definition loop_measure (bytes_left blocksize : Z) : nat :=
  if bytes_left =? 0 then 0%nat else S (Z.to_nat (Z.abs blocksize)).

(** The loop [while bytes_left: ...].  [bytes_left // blocksize] raises
    [ZeroDivisionError] when [blocksize] is 0. *)
Equations? while_bytes_left (filesize : Z) (ret : list bound)
    (bytes_left blocksize : Z) : result loop_state
    by wf (loop_measure bytes_left blocksize) lt :=
  while_bytes_left filesize ret bytes_left blocksize
    with Z.eq_dec bytes_left 0 := {
    | left _ =>
        Return {| st_ret := ret;
                  st_bytes_left := bytes_left;
                  st_blocksize := blocksize |}
    | right _ with Z.eq_dec blocksize 0 := {
      | left _ => Raise ZeroDivisionError
      | right _ =>
          let blocks := bytes_left / blocksize in
          let ret' :=
            if blocks =? 0 then ret
            else
              let offset := filesize - bytes_left in
              ret ++ [{| skip := offset / blocksize;
                         count := blocks;
                         bs := blocksize |}] in
          while_bytes_left filesize ret'
            (bytes_left - blocks * blocksize) (blocksize / 2) } }.
Proof.
  repeat match goal with x := _ |- _ => subst x end.
  unfold loop_measure.
  destruct (Z.eqb_spec (bytes_left - bytes_left / blocksize * blocksize) 0)
    as [E|E].
  - destruct (Z.eqb_spec bytes_left 0); [contradiction | lia].
  - destruct (Z.eqb_spec bytes_left 0) as [|_]; [contradiction |].
    apply -> Nat.succ_lt_mono.
    assert (Hlt : Z.abs (blocksize / 2) < Z.abs blocksize).
    { destruct (Z.eq_dec blocksize (-1)) as [->|Hm1].
      - exfalso. apply E.
        replace (bytes_left / -1) with (- bytes_left); [lia |].
        rewrite <- Z.div_opp_opp by lia. simpl. now rewrite Z.div_1_r.
      - pose proof (Z.div_mod blocksize 2 ltac:(lia)).
        pose proof (Z.mod_pos_bound blocksize 2 ltac:(lia)). lia. }
    lia.
Qed.

Definition listBounds `{MathLib} (filesize max_blocksize : Z)
    : result (list bound) :=
  p <- isPowerOf2 max_blocksize ;;
  if negb p then Raise not_a_power_of_2
  else if filesize <? max_blocksize then
    (* small files *)
    Return [{| skip := 0; count := 1; bs := filesize |}]
  else
    (* large files *)
    st <- while_bytes_left filesize [] filesize max_blocksize ;;
    Return (st_ret st).

(** ** shaPath *)

(** The hash object returned by [sha256()].  [update_app] is the contract
    stated by hashlib: repeated calls of [update] are equivalent to a single
    call with the concatenation of the arguments. *)
Class Hashlib : Type := {
  hash_object : Type;
  sha256 : hash_object;
  update : hash_object -> list byte -> hash_object;
  hexdigest : hash_object -> string;
  update_nil : forall s, update s [] = s;
  update_app : forall s a b, update (update s a) b = update s (a ++ b)
}.

(** What one [dd] process leaves behind: the bytes written to its standard
    output and its exit status. *)
Record process : Type := { stdout : list byte; returncode : Z }.

(** [subprocess.Popen(['dd', 'bs=..', 'count=..', 'skip=..', 'if=path'])]. *)
Class DdTool : Type := { dd : string -> bound -> process }.

(** [pipe.read(n)]: at most [n] bytes, everything up to end of file when [n]
    is negative; returns the data and what remains in the pipe. *)
Definition read (n : Z) (pipe : list byte) : list byte * list byte :=
  if n <? 0 then (pipe, [])
  else (firstn (Z.to_nat n) pipe, skipn (Z.to_nat n) pipe).

Definition inspect {A : Type} (a : A) : {b : A | a = b} := exist _ a eq_refl.

(** The inner loop [while True: data = p_dd.stdout.read(bs); ...]. *)
Equations? read_all `{Hashlib} (s : hash_object) (n : Z) (pipe : list byte)
    : hash_object by wf (List.length pipe) lt :=
  read_all s n pipe with inspect (read n pipe) := {
    | exist _ ([], _) _ => s
    | exist _ (data, rest) _ => read_all (update s data) n rest }.
Proof.
  unfold read in *.
  destruct (n <? 0).
  - inversion e; subst. simpl. lia.
  - inversion e as [[E1 E2]].
    rewrite length_skipn.
    destruct (Z.to_nat n); [discriminate |].
    destruct pipe; [discriminate | simpl; lia].
Qed.

(** The exit status of [dd] is never inspected and the number of bytes read
    is never compared with the size of the chunk.  The progress line written
    to standard error for each chunk is left out. *)
Definition shaPath `{MathLib} `{Hashlib} `{DdTool}
    (path : string) (filesize max_blocksize : Z) : result string :=
  bounds <- listBounds filesize max_blocksize ;;
  let s :=
    fold_left
      (fun s bound => read_all s (bs bound) (stdout (dd path bound)))
      bounds sha256 in
  Return (hexdigest s).

(** Hashing a byte string in one go: [sha256(data).hexdigest()]. *)
Definition sha256_of `{Hashlib} (data : list byte) : string :=
  hexdigest (update sha256 data).

(** ** Vocabulary of the properties *)

(** The bytes a chunk designates: [dd] seeks [skip] blocks of [bs] bytes
    and copies [count] blocks. *)
Definition byte_offset (d : bound) : Z := skip d * bs d.
Definition byte_length (d : bound) : Z := count d * bs d.

Definition covers (d : bound) (i : Z) : Prop :=
  byte_offset d <= i < byte_offset d + byte_length d.

(** Number of bytes designated by a list of chunks. *)
Fixpoint covered (l : list bound) : Z :=
  match l with
  | [] => 0
  | d :: l' => byte_length d + covered l'
  end.

(** [tiles pos l stop]: the chunks of [l] lie end to end, the first one
    starting at [pos] and the last one ending at [stop]. *)
Fixpoint tiles (pos : Z) (l : list bound) (stop : Z) : Prop :=
  match l with
  | [] => pos = stop
  | d :: l' =>
      byte_offset d = pos /\ 0 <= byte_length d /\
      tiles (pos + byte_length d) l' stop
  end.

Definition offset_lt (a b : bound) : Prop := byte_offset a < byte_offset b.

Definition bs_divides (a b : bound) : Prop := bs b <= bs a /\ (bs b | bs a).

(** The bytes of [data] that a chunk designates. *)
Definition declared_bytes (data : list byte) (d : bound) : list byte :=
  firstn (Z.to_nat (byte_length d)) (skipn (Z.to_nat (byte_offset d)) data).

(** What the inner loop of [shaPath] hands to the hash object when the pipe
    holds [pipe]: [read(0)] returns the empty string at once. *)
Definition consumed (n : Z) (pipe : list byte) : list byte :=
  if n =? 0 then [] else pipe.

(** Number of ones in the binary writing of a positive number. *)
Fixpoint set_bits (p : positive) : nat :=
  match p with
  | xH => 1
  | xO q => set_bits q
  | xI q => S (set_bits q)
  end.

(** The chunks appended by the loop entered with [blocksize = 2 ^ k], as a
    recursion on [k]. *)
Fixpoint halving (filesize bytes_left : Z) (k : nat) : list bound :=
  let blocksize := 2 ^ Z.of_nat k in
  let blocks := bytes_left / blocksize in
  (if blocks =? 0 then []
   else [{| skip := (filesize - bytes_left) / blocksize;
            count := blocks;
            bs := blocksize |}])
  ++ match k with
     | O => []
     | S k' => halving filesize (bytes_left - blocks * blocksize) k'
     end.

(** ** Instances used in the examples *)

(** A C library whose logarithm is exact. *)
Definition exact_log : MathLib := {| int_log2 := Z.log2 |}.

(** A C library whose logarithm is rounded as IEEE double arithmetic rounds
    it at [2 ^ 2955]: there [math.log(x, 2)] evaluates to
    2954.9999999999995, which [int] truncates to 2954.  Elsewhere it is
    taken exact. *)
Definition rounding_log : MathLib :=
  {| int_log2 := fun x => if x =? 2 ^ 2955 then 2954 else Z.log2 x |}.

(** A hash object that keeps the whole message; its digest is the message
    itself, so that different messages have different digests. *)
Definition transcript : Hashlib :=
  {| hash_object := list byte;
     sha256 := [];
     update := fun s data => s ++ data;
     hexdigest := string_of_list_byte;
     update_nil := fun s => app_nil_r s;
     update_app := fun s a b => eq_sym (app_assoc s a b) |}.

(** [dd] over a regular file holding [data].  [dd] refuses a block size of
    zero and negative numbers. *)
Definition dd_on_file (data : list byte) : DdTool :=
  {| dd := fun _ d =>
       if (bs d <=? 0) || (skip d <? 0) || (count d <? 0)
       then {| stdout := []; returncode := 1 |}
       else {| stdout := declared_bytes data d; returncode := 0 |} |}.

(** A file of seven bytes. *)
Definition sample_file : list byte := list_byte_of_string "shaall!".

(** [dd] over a device that cannot be read. *)
Definition dd_unreadable : DdTool :=
  {| dd := fun _ _ => {| stdout := []; returncode := 1 |} |}.

(** ** The blocks read from one pipe *)

(** The successive values of [data] in the inner loop of [shaPath], each
    of them the argument of one call of [update]. *)
Equations? read_blocks (n : Z) (pipe : list byte) : list (list byte)
    by wf (List.length pipe) lt :=
  read_blocks n pipe with inspect (read n pipe) := {
    | exist _ ([], _) _ => []
    | exist _ (data, rest) _ => data :: read_blocks n rest }.
Proof.
  unfold read in *.
  destruct (n <? 0).
  - inversion e; subst. simpl. lia.
  - inversion e as [[E1 E2]].
    rewrite length_skipn.
    destruct (Z.to_nat n); [discriminate |].
    destruct pipe; [discriminate | simpl; lia].
Qed.

(** Number of ones in the binary writing of a number that is not negative. *)
Definition ones (x : Z) : nat :=
  match x with
  | Z.pos p => set_bits p
  | _ => 0%nat
  end.

(** ** The script *)

(** What the script needs from the interpreter and the operating system:
    [os.getenv(name)] ([None] when the variable is not set),
    [os.path.getsize(path)] ([None] stands for [OSError]) and [int(s)] on a
    string ([None] stands for [ValueError]). *)
Class Runtime : Type := {
  getenv : string -> option string;
  getsize : string -> option Z;
  int : string -> option Z
}.

(** The exceptions a run of the script can end with: those of the functions
    above, and the two raised by indexing and by the operating system. *)
Inductive error : Type :=
| Core (e : exn)
| IndexError
| OSError.

Inductive run (A : Type) : Type :=
| Done (a : A)
| Traceback (e : error).
Arguments Done {A} a.
Arguments Traceback {A} e.

Definition run_bind {A B : Type} (m : run A) (k : A -> run B) : run B :=
  match m with
  | Done a => k a
  | Traceback e => Traceback e
  end.

Notation "x <-- m ;; k" := (run_bind m (fun x => k))
  (at level 61, m at next level, right associativity).

Definition of_result {A : Type} (m : result A) : run A :=
  match m with
  | Return a => Done a
  | Raise e => Traceback (Core e)
  end.

(** [l[i]]. *)
Definition item (l : list string) (i : nat) : run string :=
  match nth_error l i with
  | Some s => Done s
  | None => Traceback IndexError
  end.

Definition os_path_getsize `{Runtime} (path : string) : run Z :=
  match getsize path with
  | Some n => Done n
  | None => Traceback OSError
  end.

Definition py_int `{Runtime} (s : string) : run Z :=
  match int s with
  | Some n => Done n
  | None => Traceback (Core ValueError)
  end.

(** [MAX_BLOCK_SIZE = int(os.getenv('MAX_BLOCK_SIZE', 2 ** 20))], evaluated
    when the module is loaded. *)
Definition MAX_BLOCK_SIZE `{Runtime} : run Z :=
  match getenv "MAX_BLOCK_SIZE" with
  | Some s => py_int s
  | None => Done (2 ^ 20)
  end.

(** One value handed to [print]: the usage text, formatted with the name of
    the program and the maximum block size, a number, or a string. *)
Inductive printed : Type :=
| Usage (prog : string) (max_block_size : Z)
| Number (n : Z)
| Text (s : string).

(** The module run as a script with [sys.argv = argv]: what it prints, or the
    exception it ends with. *)
Definition main `{MathLib} `{Hashlib} `{DdTool} `{Runtime}
    (argv : list string) : run (list printed) :=
  max_block_size <-- MAX_BLOCK_SIZE ;;
  let args := tl argv in
  match args with
  | [] =>
      prog <-- item argv 0 ;;
      Done [Usage prog max_block_size]
  | subcommand :: _ =>
      if (subcommand =? "size")%string then
        path <-- item args 1 ;;
        size <-- os_path_getsize path ;;
        Done [Number size]
      else if (subcommand =? "hash")%string then
        filename <-- item args 1 ;;
        filesize <--
          (if (List.length args =? 3)%nat then
             arg <-- item args 2 ;; py_int arg
           else os_path_getsize filename) ;;
        digest <-- of_result (shaPath filename filesize max_block_size) ;;
        Done [Text digest]
      else Done []
  end.

(** A runtime for the examples: [MAX_BLOCK_SIZE] is set to 4, the file
    [sample] holds [sample_file], no other path exists, and [int] reads
    a few numerals. *)
Definition sample_runtime : Runtime :=
  {| getenv := fun name =>
       if (name =? "MAX_BLOCK_SIZE")%string then Some "4"%string else None;
     getsize := fun path =>
       if (path =? "sample")%string
       then Some (Z.of_nat (List.length sample_file)) else None;
     int := fun s =>
       if (s =? "4")%string then Some 4
       else if (s =? "5")%string then Some 5
       else if (s =? "100")%string then Some 100
       else None |}.

(** A runtime whose [MAX_BLOCK_SIZE] is not a number. *)
Definition misconfigured_runtime : Runtime :=
  {| getenv := fun name =>
       if (name =? "MAX_BLOCK_SIZE")%string then Some "1M"%string else None;
     getsize := fun _ => None;
     int := fun _ => None |}.

(** * Properties *)

(** ** The power-of-two test *)

Section PowerOfTwo.
Context `{MathLib}.

Lemma pow2_equals_true log x :
  pow2_equals log x = true <-> 0 <= log /\ x = 2 ^ log.
Proof.
  unfold pow2_equals. destruct (Z.leb_spec 0 log).
  - rewrite Z.eqb_eq. intuition congruence.
  - split; [discriminate | lia].
Qed.

Lemma isPowerOf2_true x :
  isPowerOf2 x = Return true <-> 0 <= int_log2 x /\ x = 2 ^ int_log2 x.
Proof.
  unfold isPowerOf2. destruct (Z.leb_spec x 0) as [Hx|Hx].
  - split; [discriminate |]. intros [Hl E].
    pose proof (Z.pow_pos_nonneg 2 (int_log2 x) ltac:(lia) Hl). lia.
  - rewrite <- pow2_equals_true. split; [congruence | now intros ->].
Qed.

Lemma isPowerOf2_nonpositive x : x <= 0 -> isPowerOf2 x = Raise ValueError.
Proof. intros Hx. unfold isPowerOf2. now destruct (Z.leb_spec x 0); [| lia]. Qed.

Lemma isPowerOf2_positive x :
  0 < x -> isPowerOf2 x = Return (pow2_equals (int_log2 x) x).
Proof. intros Hx. unfold isPowerOf2. now destruct (Z.leb_spec x 0); [lia |]. Qed.

Lemma isPowerOf2_rejects x :
  0 < x -> (forall k, 0 <= k -> x <> 2 ^ k) -> isPowerOf2 x = Return false.
Proof.
  intros Hx Hk. rewrite isPowerOf2_positive by assumption. f_equal.
  destruct (pow2_equals (int_log2 x) x) eqn:E; [| reflexivity].
  apply pow2_equals_true in E. destruct E as [Hl E]. now apply Hk in E.
Qed.

Lemma accepted_log2 x :
  isPowerOf2 x = Return true -> 0 < x /\ int_log2 x = Z.log2 x /\ 0 <= Z.log2 x.
Proof.
  intros Hx. apply isPowerOf2_true in Hx. destruct Hx as [Hl E].
  assert (Z.log2 x = int_log2 x).
  { rewrite E at 1. now apply Z.log2_pow2. }
  pose proof (Z.pow_pos_nonneg 2 (int_log2 x) ltac:(lia) Hl). lia.
Qed.

End PowerOfTwo.

(** ** The halving loop *)

Lemma while_bytes_left_step filesize r bytes_left blocksize :
  while_bytes_left filesize r bytes_left blocksize =
  if bytes_left =? 0 then
    Return {| st_ret := r; st_bytes_left := bytes_left;
              st_blocksize := blocksize |}
  else if blocksize =? 0 then Raise ZeroDivisionError
  else
    let blocks := bytes_left / blocksize in
    while_bytes_left filesize
      (if blocks =? 0 then r
       else r ++ [{| skip := (filesize - bytes_left) / blocksize;
                     count := blocks;
                     bs := blocksize |}])
      (bytes_left - blocks * blocksize) (blocksize / 2).
Proof.
  rewrite while_bytes_left_equation_1.
  destruct (Z.eq_dec bytes_left 0) as [E|E].
  - rewrite while_bytes_left_clause_1_equation_1.
    now rewrite (proj2 (Z.eqb_eq _ _) E).
  - rewrite while_bytes_left_clause_1_equation_2, (proj2 (Z.eqb_neq _ _) E).
    destruct (Z.eq_dec blocksize 0) as [E'|E'].
    + rewrite while_bytes_left_clause_1_clause_2_equation_1.
      now rewrite (proj2 (Z.eqb_eq _ _) E').
    + rewrite while_bytes_left_clause_1_clause_2_equation_2.
      now rewrite (proj2 (Z.eqb_neq _ _) E').
Qed.

Lemma halving_eq filesize bytes_left k :
  halving filesize bytes_left k =
  (if bytes_left / 2 ^ Z.of_nat k =? 0 then []
   else [{| skip := (filesize - bytes_left) / 2 ^ Z.of_nat k;
            count := bytes_left / 2 ^ Z.of_nat k;
            bs := 2 ^ Z.of_nat k |}])
  ++ match k with
     | O => []
     | S k' =>
         halving filesize
           (bytes_left - bytes_left / 2 ^ Z.of_nat k * 2 ^ Z.of_nat k) k'
     end.
Proof. destruct k; reflexivity. Qed.

Lemma pow2_succ k : 2 ^ Z.of_nat (S k) = 2 * 2 ^ Z.of_nat k.
Proof. rewrite Nat2Z.inj_succ. apply Z.pow_succ_r. lia. Qed.

Lemma pow2_pos k : 0 < 2 ^ Z.of_nat k.
Proof. apply Z.pow_pos_nonneg; lia. Qed.

Lemma remainder_bounds a b :
  0 < b -> 0 <= a - a / b * b < b.
Proof.
  intros Hb. pose proof (Z.div_mod a b ltac:(lia)).
  pose proof (Z.mod_pos_bound a b Hb). lia.
Qed.

Lemma halving_zero filesize k : halving filesize 0 k = [].
Proof.
  induction k as [|k IH]; rewrite halving_eq, Z.div_0_l; simpl (0 =? 0);
    try reflexivity; try (pose proof (pow2_pos (S k)); lia);
    try (pose proof (pow2_pos 0); lia).
  now rewrite Z.mul_0_l, Z.sub_0_r.
Qed.

(** From a block size [2 ^ k] the loop ends normally, with nothing left,
    and has appended [halving filesize bytes_left k]. *)
Lemma while_halving k : forall filesize r bytes_left,
  0 <= bytes_left ->
  exists b,
    while_bytes_left filesize r bytes_left (2 ^ Z.of_nat k) =
    Return {| st_ret := r ++ halving filesize bytes_left k;
              st_bytes_left := 0;
              st_blocksize := b |}.
Proof.
  induction k as [|k IH]; intros filesize r bytes_left Hb;
    rewrite while_bytes_left_step, halving_eq.
  - change (2 ^ Z.of_nat 0) with 1. rewrite Z.div_1_r.
    destruct (Z.eqb_spec bytes_left 0) as [->|Hne].
    + exists 1. now rewrite app_nil_r.
    + cbv zeta. simpl (1 =? 0). cbv iota.
      rewrite Z.div_1_r, (proj2 (Z.eqb_neq _ _) Hne), Z.mul_1_r, Z.sub_diag.
      rewrite while_bytes_left_step. simpl (0 =? 0). cbv iota.
      exists (1 / 2). now rewrite app_nil_r.
  - pose proof (pow2_pos (S k)) as HB.
    destruct (Z.eqb_spec bytes_left 0) as [->|Hne].
    + exists (2 ^ Z.of_nat (S k)).
      rewrite Z.div_0_l by lia. simpl (0 =? 0). cbv iota.
      now rewrite Z.mul_0_l, Z.sub_0_r, halving_zero, app_nil_r.
    + rewrite (proj2 (Z.eqb_neq (2 ^ Z.of_nat (S k)) 0)) by lia. cbv zeta.
      replace (2 ^ Z.of_nat (S k) / 2) with (2 ^ Z.of_nat k)
        by (rewrite pow2_succ, Z.mul_comm, Z.div_mul; lia).
      match goal with
        |- context [while_bytes_left _ ?r' ?b' _] =>
          destruct (IH filesize r' b') as [b Hrun]
      end.
      { apply remainder_bounds, HB. }
      rewrite Hrun. exists b. do 2 f_equal.
      destruct (bytes_left / 2 ^ Z.of_nat (S k) =? 0);
        [reflexivity | now rewrite <- app_assoc].
Qed.

(** The chunks of [halving] lie end to end from [filesize - bytes_left] to
    [filesize], provided the starting point is a multiple of the block
    size: the floor division that computes [skip] is then exact. *)
Lemma halving_tiles k : forall filesize bytes_left,
  0 <= bytes_left ->
  (2 ^ Z.of_nat k | filesize - bytes_left) ->
  tiles (filesize - bytes_left) (halving filesize bytes_left k) filesize.
Proof.
  induction k as [|k IH]; intros filesize bytes_left Hb [q Hq];
    rewrite halving_eq.
  - change (2 ^ Z.of_nat 0) with 1 in *. rewrite !Z.div_1_r.
    destruct (Z.eqb_spec bytes_left 0) as [->|Hne]; simpl; [lia |].
    unfold byte_offset, byte_length; simpl. lia.
  - pose proof (pow2_pos (S k)) as HB. pose proof (pow2_pos k) as Hk.
    set (B := 2 ^ Z.of_nat (S k)) in *.
    pose proof (remainder_bounds bytes_left B HB) as Hr.
    assert (Hnext : (2 ^ Z.of_nat k | filesize - (bytes_left - bytes_left / B * B))).
    { exists (2 * (q + bytes_left / B)). subst B. rewrite pow2_succ in *. lia. }
    specialize (IH filesize _ (proj1 Hr) Hnext).
    destruct (Z.eqb_spec (bytes_left / B) 0) as [E|E]; simpl.
    + replace (filesize - bytes_left)
        with (filesize - (bytes_left - bytes_left / B * B)) by (rewrite E; lia).
      exact IH.
    + unfold byte_offset, byte_length; simpl.
      assert (0 < bytes_left / B).
      { pose proof (Z.div_pos bytes_left B Hb HB). lia. }
      rewrite Hq, Z.div_mul by lia. repeat split; [nia |].
      replace (q * B + bytes_left / B * B)
        with (filesize - (bytes_left - bytes_left / B * B)) by lia.
      exact IH.
Qed.

(** Every chunk of [halving] has a power of two as block size and holds at
    least one block. *)
Lemma halving_In k : forall filesize bytes_left d,
  0 <= bytes_left ->
  In d (halving filesize bytes_left k) ->
  exists j, (j <= k)%nat /\ bs d = 2 ^ Z.of_nat j /\ 0 < count d.
Proof.
  induction k as [|k IH]; intros filesize bytes_left d Hb Hin;
    rewrite halving_eq in Hin; apply in_app_or in Hin;
    destruct Hin as [Hin|Hin]; try contradiction.
  - destruct (Z.eqb_spec (bytes_left / 2 ^ Z.of_nat 0) 0) as [E|E];
      [contradiction |].
    destruct Hin as [<-|[]]. exists 0%nat. cbn [bs count].
    pose proof (Z.div_pos bytes_left (2 ^ Z.of_nat 0) Hb (pow2_pos 0)).
    split; [lia | split; [reflexivity | lia]].
  - destruct (Z.eqb_spec (bytes_left / 2 ^ Z.of_nat (S k)) 0) as [E|E];
      [contradiction |].
    destruct Hin as [<-|[]]. exists (S k). cbn [bs count].
    pose proof (Z.div_pos bytes_left _ Hb (pow2_pos (S k))).
    split; [lia | split; [reflexivity | lia]].
  - apply IH in Hin; [| apply remainder_bounds, pow2_pos].
    destruct Hin as (j & Hj & Hbs & Hc). exists j. auto.
Qed.

Lemma halving_length k : forall filesize bytes_left,
  (List.length (halving filesize bytes_left k) <= S k)%nat.
Proof.
  induction k as [|k IH]; intros filesize bytes_left;
    rewrite halving_eq, length_app.
  - destruct (_ =? 0); simpl; lia.
  - specialize (IH filesize
      (bytes_left - bytes_left / 2 ^ Z.of_nat (S k) * 2 ^ Z.of_nat (S k))).
    destruct (_ =? 0); cbn [List.length]; lia.
Qed.

Lemma halving_bs_sorted k : forall filesize bytes_left,
  0 <= bytes_left ->
  StronglySorted bs_divides (halving filesize bytes_left k).
Proof.
  induction k as [|k IH]; intros filesize bytes_left Hb; rewrite halving_eq.
  - destruct (_ =? 0); simpl; repeat constructor.
  - pose proof (remainder_bounds bytes_left _ (pow2_pos (S k))) as Hr.
    destruct (_ =? 0); cbn [app]; [now apply IH |].
    constructor; [now apply IH |].
    apply Forall_forall. intros d Hd.
    apply halving_In in Hd; [| apply Hr].
    destruct Hd as (j & Hj & Hbs & _).
    unfold bs_divides. cbn [bs]. rewrite Hbs. split.
    + apply Z.pow_le_mono_r; lia.
    + exists (2 ^ (Z.of_nat (S k) - Z.of_nat j)).
      rewrite <- Z.pow_add_r by lia. f_equal. lia.
Qed.

(** ** Chunks lying end to end *)

Lemma tiles_le l : forall pos stop, tiles pos l stop -> pos <= stop.
Proof.
  induction l as [|d l IH]; simpl; intros pos stop Ht.
  - lia.
  - destruct Ht as (_ & Hlen & Ht). apply IH in Ht. lia.
Qed.

Lemma tiles_In_bounds l : forall pos stop d,
  tiles pos l stop -> In d l ->
  pos <= byte_offset d /\ byte_offset d + byte_length d <= stop.
Proof.
  induction l as [|a l IH]; simpl; intros pos stop d Ht Hin; [contradiction |].
  destruct Ht as (Hoff & Hlen & Ht). destruct Hin as [->|Hin].
  - apply tiles_le in Ht. lia.
  - destruct (IH _ _ _ Ht Hin). lia.
Qed.

Lemma tiles_covers l : forall pos stop,
  tiles pos l stop ->
  forall i, pos <= i < stop <-> exists d, In d l /\ covers d i.
Proof.
  induction l as [|a l IH]; simpl; intros pos stop Ht i.
  - split; [lia | intros (d & [] & _)].
  - destruct Ht as (Hoff & Hlen & Ht). specialize (IH _ _ Ht i).
    pose proof (tiles_le _ _ _ Ht) as Hle. split.
    + intros Hi. destruct (Z_lt_ge_dec i (pos + byte_length a)) as [Hlt|Hge].
      * exists a. split; [now left |]. unfold covers. lia.
      * destruct (proj1 IH ltac:(lia)) as (d & Hd & Hc). exists d. auto.
    + intros (d & [<-|Hd] & Hc).
      * unfold covers in Hc. lia.
      * assert (pos + byte_length a <= i < stop) by (apply IH; eauto). lia.
Qed.

Lemma tiles_nth_lt l : forall pos stop n m d1 d2,
  tiles pos l stop -> (n < m)%nat ->
  nth_error l n = Some d1 -> nth_error l m = Some d2 ->
  byte_offset d1 + byte_length d1 <= byte_offset d2.
Proof.
  induction l as [|a l IH]; intros pos stop n m d1 d2 Ht Hnm H1 H2.
  - now destruct n.
  - destruct Ht as (Hoff & Hlen & Ht).
    destruct m as [|m]; [lia |]. simpl in H2. destruct n as [|n].
    + injection H1 as <-. apply nth_error_In in H2.
      destruct (tiles_In_bounds _ _ _ _ Ht H2). lia.
    + simpl in H1. apply (IH _ _ n m d1 d2 Ht); auto. lia.
Qed.

Lemma tiles_disjoint l pos stop :
  tiles pos l stop ->
  forall n m d1 d2, n <> m ->
    nth_error l n = Some d1 -> nth_error l m = Some d2 ->
    forall i, ~ (covers d1 i /\ covers d2 i).
Proof.
  intros Ht n m d1 d2 Hnm H1 H2 i [C1 C2]. unfold covers in *.
  destruct (Nat.lt_ge_cases n m) as [Hlt|Hge].
  - pose proof (tiles_nth_lt _ _ _ _ _ _ _ Ht Hlt H1 H2). lia.
  - assert (Hlt : (m < n)%nat) by lia.
    pose proof (tiles_nth_lt _ _ _ _ _ _ _ Ht Hlt H2 H1). lia.
Qed.

Lemma tiles_offsets_sorted l : forall pos stop,
  tiles pos l stop ->
  Forall (fun d => 0 < byte_length d) l ->
  StronglySorted offset_lt l.
Proof.
  induction l as [|a l IH]; intros pos stop Ht Hpos; [constructor |].
  destruct Ht as (Hoff & _ & Ht). inversion Hpos as [|? ? Ha Hl]; subst.
  constructor; [now apply (IH _ _ Ht) |].
  apply Forall_forall. intros d Hd.
  destruct (tiles_In_bounds _ _ _ _ Ht Hd). unfold offset_lt. lia.
Qed.

Lemma tiles_split l1 : forall pos stop d l2,
  tiles pos (l1 ++ d :: l2) stop -> byte_offset d = pos + covered l1.
Proof.
  induction l1 as [|a l1 IH]; simpl; intros pos stop d l2 Ht.
  - lia.
  - destruct Ht as (_ & _ & Ht). apply IH in Ht. lia.
Qed.

(** ** The plan of [listBounds] *)

Section Plan.
Context `{MathLib}.

Lemma listBounds_small filesize max_blocksize :
  isPowerOf2 max_blocksize = Return true ->
  filesize < max_blocksize ->
  listBounds filesize max_blocksize =
  Return [{| skip := 0; count := 1; bs := filesize |}].
Proof.
  intros Hp Hlt. unfold listBounds. rewrite Hp. simpl.
  now rewrite (proj2 (Z.ltb_lt _ _) Hlt).
Qed.

Lemma listBounds_large filesize max_blocksize :
  isPowerOf2 max_blocksize = Return true ->
  max_blocksize <= filesize ->
  listBounds filesize max_blocksize =
  Return (halving filesize filesize (Z.to_nat (Z.log2 max_blocksize))).
Proof.
  intros Hp Hle. unfold listBounds. rewrite Hp. simpl.
  rewrite (proj2 (Z.ltb_ge _ _) Hle).
  pose proof (accepted_log2 _ Hp) as (Hpos & Hlog & Hnn).
  apply isPowerOf2_true in Hp. destruct Hp as [_ Hpow].
  rewrite Hlog in Hpow.
  destruct (while_halving (Z.to_nat (Z.log2 max_blocksize)) filesize []
              filesize ltac:(lia)) as [b Hrun].
  rewrite Z2Nat.id in Hrun by assumption. rewrite <- Hpow in Hrun.
  now rewrite Hrun.
Qed.

(** Whatever the file size, an accepted block size yields a plan whose
    chunks lie end to end from 0 to the file size. *)
Lemma listBounds_tiles filesize max_blocksize :
  isPowerOf2 max_blocksize = Return true ->
  0 <= filesize ->
  exists plan,
    listBounds filesize max_blocksize = Return plan /\
    tiles 0 plan filesize.
Proof.
  intros Hp Hfs. destruct (Z_lt_le_dec filesize max_blocksize) as [Hlt|Hle].
  - rewrite listBounds_small by assumption. eexists. split; [reflexivity |].
    unfold tiles, byte_offset, byte_length. cbn [skip count bs]. lia.
  - rewrite listBounds_large by assumption. eexists. split; [reflexivity |].
    pose proof (halving_tiles (Z.to_nat (Z.log2 max_blocksize)) filesize
                  filesize Hfs) as Ht.
    rewrite Z.sub_diag in Ht. apply Ht. apply Z.divide_0_r.
Qed.

End Plan.

(** ** Streaming the chunks into the hash object *)

Section Streaming.
Context `{Hashlib}.

Lemma consumed_nil n : consumed n [] = [].
Proof. unfold consumed. now destruct (n =? 0). Qed.

(** The inner loop hands the whole content of the pipe to the hash object,
    block after block, unless the block size is 0. *)
Lemma read_all_consumed s n pipe :
  read_all s n pipe = update s (consumed n pipe).
Proof.
  funelim (read_all s n pipe);
    match goal with E : read _ _ = _ |- _ =>
      pose proof E as E'; unfold read in E' end;
    destruct (Z.ltb_spec n 0) as [Hn|Hn];
    match goal with E : (_, _) = (_, _) |- _ => injection E as E1 E2 end.
  - subst. now rewrite consumed_nil, update_nil.
  - unfold consumed. destruct (Z.eqb_spec n 0) as [_|Hne];
      [now rewrite update_nil |].
    destruct (Z.to_nat n) eqn:En; [lia |].
    destruct pipe; [now rewrite update_nil | discriminate].
  - match goal with IH : read_all _ _ _ = update _ _ |- _ => rewrite IH end.
    subst. rewrite consumed_nil, update_nil. unfold consumed.
    now rewrite (proj2 (Z.eqb_neq n 0)) by lia.
  - match goal with IH : read_all _ _ _ = update _ _ |- _ => rewrite IH end.
    assert (Hne : n <> 0).
    { intros ->. discriminate. }
    unfold consumed. rewrite (proj2 (Z.eqb_neq n 0)) by assumption.
    now rewrite update_app, <- E1, <- E2, firstn_skipn.
Qed.

Lemma fold_read_all `{DdTool} path plan : forall s,
  fold_left (fun s d => read_all s (bs d) (stdout (dd path d))) plan s =
  update s (List.concat (map (fun d => consumed (bs d) (stdout (dd path d))) plan)).
Proof.
  induction plan as [|d plan IH]; intros s; simpl.
  - now rewrite update_nil.
  - now rewrite IH, read_all_consumed, update_app.
Qed.

End Streaming.

(** The bytes designated by chunks lying end to end are, in order, the
    bytes between the two ends. *)
Lemma tiles_declared_bytes (data : list byte) l : forall pos stop,
  tiles pos l stop -> 0 <= pos ->
  List.concat (map (declared_bytes data) l) =
  firstn (Z.to_nat (stop - pos)) (skipn (Z.to_nat pos) data).
Proof.
  induction l as [|d l IH]; simpl; intros pos stop Ht Hpos.
  - subst. now rewrite Z.sub_diag.
  - destruct Ht as (Hoff & Hlen & Ht).
    rewrite (IH _ _ Ht) by lia. unfold declared_bytes. rewrite Hoff.
    pose proof (tiles_le _ _ _ Ht) as Hle.
    replace (Z.to_nat (stop - pos))
      with (Z.to_nat (byte_length d)
            + Z.to_nat (stop - (pos + byte_length d)))%nat by lia.
    replace (Z.to_nat (pos + byte_length d))
      with (Z.to_nat (byte_length d) + Z.to_nat pos)%nat by lia.
    rewrite <- skipn_skipn.
    set (tail := skipn (Z.to_nat pos) data).
    rewrite <- (firstn_skipn (Z.to_nat (byte_length d)) tail) at 3.
    rewrite firstn_app, firstn_firstn.
    rewrite Nat.min_r by lia.
    rewrite length_firstn.
    destruct (Nat.le_gt_cases (Z.to_nat (byte_length d)) (List.length tail))
      as [Hfit|Hshort].
    + rewrite Nat.min_l by assumption. f_equal. f_equal. lia.
    + rewrite (skipn_all2 tail) by lia. now rewrite !firstn_nil.
Qed.

(** ** One set bit *)

Lemma set_bits_positive p : (1 <= set_bits p)%nat.
Proof. induction p; simpl; lia. Qed.

Lemma set_bits_one_iff p :
  set_bits p = 1%nat <-> exists k : nat, Z.pos p = 2 ^ Z.of_nat k.
Proof.
  split.
  - induction p as [p IH|p IH|]; simpl; intros Hp.
    + pose proof (set_bits_positive p). lia.
    + destruct (IH Hp) as [k Hk]. exists (S k).
      rewrite pow2_succ, <- Hk. reflexivity.
    + now exists 0%nat.
  - intros [k Hk]. revert p Hk.
    induction k as [|k IH]; intros p Hk.
    + change (2 ^ Z.of_nat 0) with 1 in Hk. now injection Hk as ->.
    + rewrite pow2_succ in Hk. destruct p as [p|p|]; try lia.
      simpl. apply IH. lia.
Qed.

Section OneSetBit.
Context `{MathLib}.

(** Whatever the C library returns, an accepted number is positive and has
    exactly one set bit. *)
Lemma isPowerOf2_one_bit x :
  isPowerOf2 x = Return true -> exists p, x = Z.pos p /\ set_bits p = 1%nat.
Proof.
  intros Hx. pose proof (accepted_log2 _ Hx) as (Hpos & _ & _).
  apply isPowerOf2_true in Hx. destruct Hx as [Hl Hx].
  destruct x as [|p|p]; try lia. exists p. split; [reflexivity |].
  apply set_bits_one_iff. exists (Z.to_nat (int_log2 (Z.pos p))).
  now rewrite Z2Nat.id.
Qed.

(** The converse needs the truncated floating-point logarithm to be the
    exact exponent at [x]. *)
Lemma isPowerOf2_exact_log p :
  int_log2 (Z.pos p) = Z.log2 (Z.pos p) ->
  set_bits p = 1%nat -> isPowerOf2 (Z.pos p) = Return true.
Proof.
  intros Hlog Hp. apply set_bits_one_iff in Hp. destruct Hp as [k Hk].
  apply isPowerOf2_true. rewrite Hlog, Hk, Z.log2_pow2 by lia.
  split; [lia | reflexivity].
Qed.

(** The doctest [isPowerOf2(1025)] does not depend on the C library. *)
Lemma isPowerOf2_1025 : isPowerOf2 1025 = Return false.
Proof.
  apply isPowerOf2_rejects; [lia |]. intros k Hk E.
  assert (Hp : set_bits 1025 = 1%nat).
  { apply set_bits_one_iff. exists (Z.to_nat k). now rewrite Z2Nat.id. }
  discriminate.
Qed.

Lemma listBounds_rejects filesize max_blocksize :
  0 < max_blocksize ->
  (forall k, 0 <= k -> max_blocksize <> 2 ^ k) ->
  listBounds filesize max_blocksize = Raise not_a_power_of_2.
Proof.
  intros Hpos Hk. unfold listBounds.
  now rewrite (isPowerOf2_rejects _ Hpos Hk).
Qed.

Lemma listBounds_nonpositive filesize max_blocksize :
  max_blocksize <= 0 ->
  listBounds filesize max_blocksize = Raise ValueError.
Proof.
  intros Hle. unfold listBounds. now rewrite (isPowerOf2_nonpositive _ Hle).
Qed.

End OneSetBit.

(** * The claims

    Where a claim speaks of a power-of-two maximum block size, the
    statement assumes that [isPowerOf2] accepts it, which by
    [isPowerOf2_true] says that it is [2 ^ k] for the [k >= 0] that the
    truncated logarithm returns. *)

Section Claims.
Context `{MathLib}.

(** C7.  When the file is smaller than an accepted power-of-two maximum
    block size, the plan is the single chunk [skip = 0], [count = 1],
    [bs = filesize]; for an empty file that chunk has block size 0 and
    designates no byte. *)
Theorem listBounds_small_file filesize max_blocksize :
  isPowerOf2 max_blocksize = Return true ->
  filesize < max_blocksize ->
  listBounds filesize max_blocksize =
    Return [{| skip := 0; count := 1; bs := filesize |}] /\
  listBounds 0 max_blocksize = Return [{| skip := 0; count := 1; bs := 0 |}] /\
  forall i, ~ covers {| skip := 0; count := 1; bs := 0 |} i.
Proof.
  intros Hp Hlt. pose proof (accepted_log2 _ Hp) as (Hpos & _ & _).
  split; [now apply listBounds_small |].
  split; [now apply listBounds_small |].
  intros i. unfold covers, byte_offset, byte_length. cbn [skip count bs]. lia.
Qed.

(** C2.  For a file size of at least 0 and an accepted power-of-two maximum
    block size, the byte ranges of the chunks of the plan are pairwise
    disjoint and their union is the interval from 0 to the file size. *)
Theorem listBounds_partition filesize max_blocksize :
  isPowerOf2 max_blocksize = Return true ->
  0 <= filesize ->
  exists plan,
    listBounds filesize max_blocksize = Return plan /\
    (forall i, 0 <= i < filesize <-> exists d, In d plan /\ covers d i) /\
    (forall n m d1 d2, n <> m ->
       nth_error plan n = Some d1 -> nth_error plan m = Some d2 ->
       forall i, ~ (covers d1 i /\ covers d2 i)).
Proof.
  intros Hp Hfs.
  destruct (listBounds_tiles filesize max_blocksize Hp Hfs) as (plan & Hplan & Ht).
  exists plan. split; [assumption |]. split.
  - now apply tiles_covers.
  - now apply (tiles_disjoint plan 0 filesize).
Qed.

(** C3.  Under the same conditions the chunks are sorted by strictly
    increasing byte offset, each later block size is at most and divides
    each earlier one, and the byte offset of every chunk is the number of
    bytes designated by the chunks before it, a multiple of its block
    size. *)
Theorem listBounds_ordered filesize max_blocksize :
  isPowerOf2 max_blocksize = Return true ->
  0 <= filesize ->
  exists plan,
    listBounds filesize max_blocksize = Return plan /\
    StronglySorted offset_lt plan /\
    StronglySorted bs_divides plan /\
    (forall l1 d l2, plan = l1 ++ d :: l2 ->
       byte_offset d = covered l1 /\ (bs d | covered l1)).
Proof.
  intros Hp Hfs.
  destruct (listBounds_tiles filesize max_blocksize Hp Hfs) as (plan & Hplan & Ht).
  exists plan. split; [assumption |].
  assert (Hsplit : forall l1 d l2, plan = l1 ++ d :: l2 ->
            byte_offset d = covered l1 /\ (bs d | covered l1)).
  { intros l1 d l2 ->. apply tiles_split in Ht. rewrite Z.add_0_l in Ht.
    split; [assumption |]. rewrite <- Ht. exists (skip d). reflexivity. }
  destruct (Z_lt_le_dec filesize max_blocksize) as [Hlt|Hle].
  - rewrite listBounds_small in Hplan by assumption. injection Hplan as <-.
    split; [| split]; [repeat constructor .. | exact Hsplit].
  - rewrite listBounds_large in Hplan by assumption. injection Hplan as <-.
    split; [| split; [now apply halving_bs_sorted | exact Hsplit]].
    apply (tiles_offsets_sorted _ 0 filesize Ht).
    apply Forall_forall. intros d Hd.
    apply halving_In in Hd; [| assumption].
    destruct Hd as (j & _ & Hbs & Hc). unfold byte_length.
    pose proof (pow2_pos j). nia.
Qed.

(** C8.  Under the same conditions the plan has at most
    [log2 max_blocksize + 1] chunks. *)
Theorem listBounds_length filesize max_blocksize :
  isPowerOf2 max_blocksize = Return true ->
  0 <= filesize ->
  exists plan,
    listBounds filesize max_blocksize = Return plan /\
    Z.of_nat (List.length plan) <= Z.log2 max_blocksize + 1.
Proof.
  intros Hp Hfs. pose proof (accepted_log2 _ Hp) as (_ & _ & Hnn).
  destruct (Z_lt_le_dec filesize max_blocksize) as [Hlt|Hle].
  - rewrite listBounds_small by assumption. eexists. split; [reflexivity |].
    cbn [List.length]. lia.
  - rewrite listBounds_large by assumption. eexists. split; [reflexivity |].
    pose proof (halving_length (Z.to_nat (Z.log2 max_blocksize))
                  filesize filesize). lia.
Qed.

(** C9.  Entered with a block size that has dropped to 0 while bytes are
    left, the loop stops with the division error of
    [bytes_left // blocksize]; started from an accepted power-of-two block
    size and a file size of at least 0 it never gets there and ends normally
    with no bytes left. *)
Theorem while_bytes_left_exhausted filesize max_blocksize r bytes_left :
  isPowerOf2 max_blocksize = Return true ->
  0 <= filesize ->
  bytes_left <> 0 ->
  while_bytes_left filesize r bytes_left 0 = Raise ZeroDivisionError /\
  exists st,
    while_bytes_left filesize [] filesize max_blocksize = Return st /\
    st_bytes_left st = 0.
Proof.
  intros Hp Hfs Hne. split.
  - rewrite while_bytes_left_step.
    now rewrite (proj2 (Z.eqb_neq _ _) Hne).
  - pose proof (accepted_log2 _ Hp) as (_ & Hlog & Hnn).
    apply isPowerOf2_true in Hp. destruct Hp as [_ Hpow].
    destruct (while_halving (Z.to_nat (Z.log2 max_blocksize)) filesize []
                filesize Hfs) as [b Hrun].
    rewrite Z2Nat.id, <- Hlog, <- Hpow in Hrun by assumption.
    eexists. split; [exact Hrun | reflexivity].
Qed.

(** C10.  On zero and on negative numbers [isPowerOf2] does not return
    [False]: the logarithm raises the math domain error, and [listBounds]
    called with such a maximum block size, 0 in particular, stops with that
    error and not with the power-of-two error. *)
Theorem isPowerOf2_domain_error x filesize :
  x <= 0 ->
  isPowerOf2 x = Raise ValueError /\
  isPowerOf2 x <> Return false /\
  listBounds filesize x = Raise ValueError /\
  listBounds filesize 0 = Raise ValueError /\
  listBounds filesize 0 <> Raise not_a_power_of_2.
Proof.
  intros Hx.
  pose proof (isPowerOf2_nonpositive x Hx) as Hlog.
  pose proof (listBounds_nonpositive filesize x Hx) as Hplan.
  pose proof (listBounds_nonpositive filesize 0 ltac:(lia)) as Hzero.
  unfold not_a_power_of_2 in *.
  repeat split; try assumption; congruence.
Qed.

(** C5.  A maximum block size of 0 is not a power of two, yet [listBounds]
    does not stop with the power-of-two error there: the math domain error
    of [isPowerOf2] comes first. *)
Theorem listBounds_zero_blocksize :
  (forall k, 0 <= k -> 0 <> 2 ^ k) /\
  listBounds 10 0 = Raise ValueError /\
  listBounds 10 0 <> Raise (Exception "Block size must be a power of 2").
Proof.
  split; [| split].
  - intros k Hk. pose proof (Z.pow_pos_nonneg 2 k ltac:(lia) Hk). lia.
  - reflexivity.
  - discriminate.
Qed.

Context `{Hashlib} `{DdTool}.

(** C1.  When [dd] writes, for every chunk of the plan, the bytes of the
    file that the chunk designates, [shaPath] returns the digest obtained by
    hashing the whole file in one go. *)
Theorem shaPath_direct path (data : list byte) max_blocksize :
  isPowerOf2 max_blocksize = Return true ->
  (forall plan d,
     listBounds (Z.of_nat (List.length data)) max_blocksize = Return plan ->
     In d plan -> stdout (dd path d) = declared_bytes data d) ->
  shaPath path (Z.of_nat (List.length data)) max_blocksize =
  Return (sha256_of data).
Proof.
  intros Hp Hdd.
  destruct (listBounds_tiles (Z.of_nat (List.length data)) max_blocksize Hp
              ltac:(lia)) as (plan & Hplan & Ht).
  unfold shaPath, sha256_of. rewrite Hplan. cbn [bind].
  rewrite fold_read_all. do 3 f_equal.
  rewrite (map_ext_in _ (declared_bytes data)).
  - rewrite (tiles_declared_bytes data plan 0 _ Ht) by lia.
    rewrite Z.sub_0_r, Nat2Z.id. cbn [Z.to_nat skipn]. apply firstn_all.
  - intros d Hd. rewrite (Hdd plan d Hplan Hd). unfold consumed.
    destruct (Z.eqb_spec (bs d) 0) as [E|_]; [| reflexivity].
    unfold declared_bytes, byte_length. rewrite E, Z.mul_0_r. reflexivity.
Qed.

(** C6, as the program behaves.  [shaPath] never fails on account of [dd]:
    whatever each [dd] run wrote, all of the chunk, part of it or nothing,
    and whatever its exit status, these bytes are hashed in plan order and
    a digest is returned. *)
Theorem shaPath_hashes_what_dd_wrote path filesize max_blocksize :
  isPowerOf2 max_blocksize = Return true ->
  exists plan,
    listBounds filesize max_blocksize = Return plan /\
    shaPath path filesize max_blocksize =
    Return (sha256_of
              (List.concat
                 (map (fun d => consumed (bs d) (stdout (dd path d))) plan))).
Proof.
  intros Hp.
  assert (Hplan : exists plan, listBounds filesize max_blocksize = Return plan).
  { destruct (Z_lt_le_dec filesize max_blocksize) as [Hlt|Hle].
    - rewrite listBounds_small by assumption. eauto.
    - rewrite listBounds_large by assumption. eauto. }
  destruct Hplan as [plan Hplan]. exists plan. split; [assumption |].
  unfold shaPath, sha256_of. rewrite Hplan. cbn [bind].
  now rewrite fold_read_all.
Qed.

End Claims.

(** * Further properties of the program *)

(** ** The loop from any block size *)

Lemma halved_nonzero bytes_left blocksize :
  blocksize <> 0 ->
  bytes_left - bytes_left / blocksize * blocksize <> 0 ->
  blocksize / 2 <> 0.
Proof.
  intros Hbs Hleft Hhalf.
  assert (blocksize = 1).
  { pose proof (Z.div_mod blocksize 2 ltac:(lia)).
    pose proof (Z.mod_pos_bound blocksize 2 ltac:(lia)). lia. }
  subst. rewrite Z.div_1_r in Hleft. lia.
Qed.

Lemma loop_measure_decreases bytes_left blocksize :
  bytes_left <> 0 -> blocksize <> 0 ->
  (loop_measure (bytes_left - bytes_left / blocksize * blocksize)
     (blocksize / 2)
   < loop_measure bytes_left blocksize)%nat.
Proof.
  intros Hleft Hbs. unfold loop_measure.
  rewrite (proj2 (Z.eqb_neq bytes_left 0)) by assumption.
  destruct (Z.eqb_spec (bytes_left - bytes_left / blocksize * blocksize) 0)
    as [E|E]; [lia |].
  pose proof (halved_nonzero _ _ Hbs E) as Hhalf.
  pose proof (Z.div_mod blocksize 2 ltac:(lia)).
  pose proof (Z.mod_pos_bound blocksize 2 ltac:(lia)).
  assert (blocksize <> -1).
  { intros ->. apply E.
    replace (bytes_left / -1) with (- bytes_left); [lia |].
    rewrite <- Z.div_opp_opp by lia. simpl. now rewrite Z.div_1_r. }
  lia.
Qed.

(** X4.  Entered with a block size other than 0, a power of two or not,
    positive or negative, or with nothing left to read, the loop ends
    normally and leaves no bytes. *)
Theorem while_bytes_left_returns filesize r bytes_left blocksize :
  bytes_left = 0 \/ blocksize <> 0 ->
  exists st,
    while_bytes_left filesize r bytes_left blocksize = Return st /\
    st_bytes_left st = 0.
Proof.
  remember (loop_measure bytes_left blocksize) as m eqn:Hm.
  revert r bytes_left blocksize Hm.
  induction m as [m IH] using lt_wf_ind.
  intros r bytes_left blocksize Hm Hok.
  rewrite while_bytes_left_step.
  destruct (Z.eqb_spec bytes_left 0) as [->|Hleft].
  - eexists. split; reflexivity.
  - destruct Hok as [Hz|Hbs]; [contradiction |].
    rewrite (proj2 (Z.eqb_neq blocksize 0)) by assumption. cbv zeta.
    eapply IH; [| reflexivity |].
    + subst m. now apply loop_measure_decreases.
    + destruct (Z.eq_dec (bytes_left - bytes_left / blocksize * blocksize) 0)
        as [E|E]; [now left | right].
      now apply (halved_nonzero bytes_left).
Qed.

Section Refusals.
Context `{MathLib}.

Lemma not_one_bit_not_pow2 p :
  set_bits p <> 1%nat -> forall k, 0 <= k -> Z.pos p <> 2 ^ k.
Proof.
  intros Hbits k Hk E. apply Hbits, set_bits_one_iff.
  exists (Z.to_nat k). now rewrite Z2Nat.id.
Qed.

(** X1.  On a positive number that does not have exactly one set bit,
    [isPowerOf2] returns [False], whatever the logarithm returns. *)
Theorem isPowerOf2_refuses p :
  set_bits p <> 1%nat -> isPowerOf2 (Z.pos p) = Return false.
Proof.
  intros Hbits. apply isPowerOf2_rejects; [lia |].
  now apply not_one_bit_not_pow2.
Qed.

(** X2.  For a positive maximum block size that does not have exactly one
    set bit, [listBounds] ends with the power-of-two error, whatever the
    file size and whatever the logarithm returns. *)
Theorem listBounds_refuses filesize p :
  set_bits p <> 1%nat ->
  listBounds filesize (Z.pos p) = Raise not_a_power_of_2.
Proof.
  intros Hbits. apply listBounds_rejects; [lia |].
  now apply not_one_bit_not_pow2.
Qed.

Lemma listBounds_accepted_returns filesize max_blocksize :
  isPowerOf2 max_blocksize = Return true ->
  exists plan, listBounds filesize max_blocksize = Return plan.
Proof.
  intros Hp. destruct (Z_lt_le_dec filesize max_blocksize) as [Hlt|Hle].
  - rewrite listBounds_small by assumption. eauto.
  - rewrite listBounds_large by assumption. eauto.
Qed.

(** X3.  [listBounds] fails in two ways only: with the math domain error
    when the maximum block size is not positive, with the power-of-two
    error when it is positive and [isPowerOf2] returns [False].  The
    division by zero of the loop never comes out of it. *)
Theorem listBounds_failures filesize max_blocksize e :
  listBounds filesize max_blocksize = Raise e ->
  (max_blocksize <= 0 /\ e = ValueError) \/
  (0 < max_blocksize /\ isPowerOf2 max_blocksize = Return false /\
   e = not_a_power_of_2).
Proof.
  intros Hfail. destruct (Z_le_gt_dec max_blocksize 0) as [Hle|Hgt].
  - left. rewrite listBounds_nonpositive in Hfail by assumption.
    split; [assumption | congruence].
  - right. split; [lia |].
    destruct (pow2_equals (int_log2 max_blocksize) max_blocksize) eqn:Eb;
      pose proof (isPowerOf2_positive max_blocksize ltac:(lia)) as Hp;
      rewrite Eb in Hp.
    + destruct (listBounds_accepted_returns filesize _ Hp) as [plan Hplan].
      congruence.
    + split; [assumption |]. unfold listBounds in Hfail.
      rewrite Hp in Hfail. simpl in Hfail. congruence.
Qed.

End Refusals.

(** ** The shape of the plan *)

Lemma small_quotient bytes_left k :
  0 <= bytes_left < 2 ^ Z.of_nat (S k) ->
  bytes_left / 2 ^ Z.of_nat k = 0 \/ bytes_left / 2 ^ Z.of_nat k = 1.
Proof.
  intros Hb. rewrite pow2_succ in Hb. pose proof (pow2_pos k) as Hk.
  assert (0 <= bytes_left / 2 ^ Z.of_nat k < 2); [| lia].
  split; [apply Z.div_pos; lia | apply Z.div_lt_upper_bound; lia].
Qed.

(** Entered with fewer bytes than two blocks, the loop only appends chunks
    of one block. *)
Lemma halving_single_blocks k : forall filesize bytes_left,
  0 <= bytes_left < 2 ^ Z.of_nat (S k) ->
  Forall (fun d => count d = 1 /\ bs d <= 2 ^ Z.of_nat k)
    (halving filesize bytes_left k).
Proof.
  induction k as [|k IH]; intros filesize bytes_left Hb;
    rewrite halving_eq; apply Forall_app; split;
    try (destruct (small_quotient _ _ Hb) as [E|E]; rewrite E;
         cbn [Z.eqb]; repeat constructor; cbn [bs]; lia).
  - constructor.
  - pose proof (remainder_bounds bytes_left _ (pow2_pos (S k))) as Hr.
    eapply Forall_impl; [| apply (IH filesize _ Hr)].
    intros d [Hc Hbs]. split; [assumption |].
    rewrite (pow2_succ k). pose proof (pow2_pos k). lia.
Qed.

Lemma tiles_covered l : forall pos stop,
  tiles pos l stop -> covered l = stop - pos.
Proof.
  induction l as [|d l IH]; simpl; intros pos stop Ht.
  - lia.
  - destruct Ht as (_ & _ & Ht). apply IH in Ht. lia.
Qed.

Lemma ones_double a b :
  0 <= a -> b = 0 \/ b = 1 -> ones (2 * a + b) = (ones a + Z.to_nat b)%nat.
Proof.
  intros Ha [-> | ->]; destruct a as [|p|p]; try lia; simpl; lia.
Qed.

Lemma ones_high_bit k : forall r,
  0 <= r < 2 ^ Z.of_nat k -> ones (2 ^ Z.of_nat k + r) = S (ones r).
Proof.
  induction k as [|k IH]; intros r Hr.
  - change (2 ^ Z.of_nat 0) with 1 in *. now replace r with 0 by lia.
  - rewrite pow2_succ in *. pose proof (pow2_pos k) as Hk.
    pose proof (Z.div_mod r 2 ltac:(lia)) as Hdm.
    pose proof (Z.mod_pos_bound r 2 ltac:(lia)) as Hm.
    assert (Hq : 0 <= r / 2 < 2 ^ Z.of_nat k).
    { split; [apply Z.div_pos; lia | apply Z.div_lt_upper_bound; lia]. }
    replace (2 * 2 ^ Z.of_nat k + r)
      with (2 * (2 ^ Z.of_nat k + r / 2) + r mod 2) by lia.
    assert (Hr2 : ones r = (ones (r / 2) + Z.to_nat (r mod 2))%nat).
    { rewrite Hdm at 1. apply ones_double; lia. }
    rewrite ones_double, (IH _ Hq) by lia. lia.
Qed.

(** Entered with fewer bytes than two blocks, the loop appends as many
    chunks as the number of bytes left has ones in binary. *)
Lemma halving_count k : forall filesize bytes_left,
  0 <= bytes_left < 2 ^ Z.of_nat (S k) ->
  List.length (halving filesize bytes_left k) = ones bytes_left.
Proof.
  induction k as [|k IH]; intros filesize bytes_left Hb;
    rewrite halving_eq, length_app.
  - change (2 ^ Z.of_nat 1) with 2 in Hb. change (2 ^ Z.of_nat 0) with 1.
    rewrite Z.div_1_r.
    assert (Hc : bytes_left = 0 \/ bytes_left = 1) by lia.
    destruct Hc as [E|E]; rewrite E; reflexivity.
  - pose proof (pow2_pos (S k)) as HB.
    pose proof (remainder_bounds bytes_left _ HB) as Hr.
    rewrite (IH filesize _ Hr).
    destruct (small_quotient _ _ Hb) as [E|E]; rewrite E; cbn [Z.eqb].
    + cbn [List.length Nat.add]. f_equal. lia.
    + cbn [List.length Nat.add].
      rewrite <- (ones_high_bit (S k)) by (rewrite E in Hr; lia).
      f_equal. lia.
Qed.

(** Entered with fewer bytes than two blocks, the loop appends a chunk of
    block size [2 ^ j] exactly when bit [j] of the number of bytes left is
    set. *)
Lemma halving_bits k : forall filesize bytes_left j,
  0 <= bytes_left < 2 ^ Z.of_nat (S k) ->
  (j <= k)%nat ->
  (exists d, In d (halving filesize bytes_left k) /\ bs d = 2 ^ Z.of_nat j)
  <-> Z.testbit bytes_left (Z.of_nat j) = true.
Proof.
  induction k as [|k IH]; intros filesize bytes_left j Hb Hj.
  - assert (j = 0%nat) by lia. subst j.
    change (2 ^ Z.of_nat 1) with 2 in Hb.
    assert (Hc : bytes_left = 0 \/ bytes_left = 1) by lia.
    destruct Hc as [E|E]; rewrite E; cbn.
    + split; [intros (d & [] & _) | discriminate].
    + split; [reflexivity |]. intros _. eexists. split; [now left | reflexivity].
  - pose proof (pow2_pos (S k)) as HB.
    pose proof (remainder_bounds bytes_left _ HB) as Hr.
    set (B := 2 ^ Z.of_nat (S k)) in *.
    assert (Hmod : bytes_left - bytes_left / B * B = bytes_left mod B).
    { pose proof (Z.div_mod bytes_left B ltac:(lia)). lia. }
    assert (Htop : Z.testbit bytes_left (Z.of_nat (S k)) = true
                   <-> bytes_left / B = 1).
    { rewrite Z.testbit_true by lia. fold B.
      destruct (small_quotient _ _ Hb) as [E|E]; fold B in E; rewrite E;
        cbn; split; intros; try reflexivity; try discriminate; lia. }
    rewrite halving_eq. fold B.
    destruct (Nat.eq_dec j (S k)) as [->|Hne].
    + rewrite Htop. split.
      * intros (d & Hin & Hbs). apply in_app_or in Hin.
        destruct Hin as [Hin|Hin].
        -- destruct (small_quotient _ _ Hb) as [E|E]; fold B in E;
             [rewrite E in Hin; contradiction | assumption].
        -- apply halving_In in Hin; [| apply Hr].
           destruct Hin as (i & Hi & Hbs' & _). rewrite Hbs' in Hbs.
           apply Z.pow_inj_r in Hbs; lia.
      * intros E. rewrite E. cbn [Z.eqb]. eexists.
        split; [apply in_or_app; left; now left | reflexivity].
    + assert (Hlow : (j <= k)%nat) by lia.
      rewrite <- (Z.mod_pow2_bits_low bytes_left (Z.of_nat (S k))) by lia.
      fold B. rewrite <- Hmod, <- (IH filesize _ j Hr Hlow). split.
      * intros (d & Hin & Hbs). apply in_app_or in Hin.
        destruct Hin as [Hin|Hin]; [| eauto].
        destruct (bytes_left / B =? 0); [contradiction |].
        destruct Hin as [<-|[]]. cbn [bs] in Hbs. subst B.
        apply Z.pow_inj_r in Hbs; lia.
      * intros (d & Hin & Hbs). exists d. split; [| assumption].
        apply in_or_app. now right.
Qed.

Section PlanShape.
Context `{MathLib}.

Lemma accepted_pow2 max_blocksize :
  isPowerOf2 max_blocksize = Return true ->
  max_blocksize = 2 ^ Z.of_nat (Z.to_nat (Z.log2 max_blocksize)).
Proof.
  intros Hp. pose proof (accepted_log2 _ Hp) as (_ & Hlog & Hnn).
  apply isPowerOf2_true in Hp. destruct Hp as [_ Hpow].
  rewrite Z2Nat.id by assumption. congruence.
Qed.

(** The plan of a large file: the chunk of whole blocks of the maximum
    size, then what the loop appends for the remainder. *)
Lemma listBounds_large_eq filesize max_blocksize :
  isPowerOf2 max_blocksize = Return true ->
  max_blocksize <= filesize ->
  listBounds filesize max_blocksize =
  Return ({| skip := 0; count := filesize / max_blocksize;
             bs := max_blocksize |}
          :: match Z.to_nat (Z.log2 max_blocksize) with
             | O => []
             | S k =>
                 halving filesize
                   (filesize - filesize / max_blocksize * max_blocksize) k
             end).
Proof.
  intros Hp Hle. rewrite listBounds_large by assumption.
  pose proof (accepted_log2 _ Hp) as (Hpos & _ & _).
  pose proof (accepted_pow2 _ Hp) as Hpow.
  rewrite halving_eq, <- Hpow.
  assert (0 < filesize / max_blocksize) by (apply Z.div_str_pos; lia).
  rewrite (proj2 (Z.eqb_neq (filesize / max_blocksize) 0)) by lia.
  now rewrite Z.sub_diag, Z.div_0_l by lia.
Qed.

(** X5.  For a file at least as large as an accepted maximum block size,
    the first chunk starts at 0 and holds all the whole blocks of the
    maximum size; every later chunk is one single block of a smaller
    size. *)
Theorem listBounds_large_file filesize max_blocksize :
  isPowerOf2 max_blocksize = Return true ->
  max_blocksize <= filesize ->
  exists rest,
    listBounds filesize max_blocksize =
      Return ({| skip := 0; count := filesize / max_blocksize;
                 bs := max_blocksize |} :: rest) /\
    Forall (fun d => count d = 1 /\ bs d < max_blocksize) rest.
Proof.
  intros Hp Hle. rewrite listBounds_large_eq by assumption.
  pose proof (accepted_log2 _ Hp) as (Hpos & _ & _).
  pose proof (accepted_pow2 _ Hp) as Hpow.
  eexists. split; [reflexivity |].
  destruct (Z.to_nat (Z.log2 max_blocksize)) as [|k]; [constructor |].
  eapply Forall_impl;
    [| apply halving_single_blocks; rewrite <- Hpow;
       apply remainder_bounds; lia].
  intros d [Hc Hbs]. split; [assumption |].
  rewrite Hpow, pow2_succ. pose proof (pow2_pos k). lia.
Qed.

(** X6.  A file whose size is a positive multiple of an accepted maximum
    block size is read as one chunk. *)
Theorem listBounds_exact_multiple q max_blocksize :
  isPowerOf2 max_blocksize = Return true ->
  0 < q ->
  listBounds (q * max_blocksize) max_blocksize =
  Return [{| skip := 0; count := q; bs := max_blocksize |}].
Proof.
  intros Hp Hq. pose proof (accepted_log2 _ Hp) as (Hpos & _ & _).
  rewrite listBounds_large_eq by (assumption || nia).
  rewrite Z.div_mul, Z.sub_diag by lia.
  destruct (Z.to_nat (Z.log2 max_blocksize));
    [reflexivity | now rewrite halving_zero].
Qed.

(** X7.  For a file at least as large as an accepted maximum block size
    [2 ^ k] and every [j < k], the plan has a chunk of block size [2 ^ j]
    exactly when bit [j] of the file size is set. *)
Theorem listBounds_binary_digits filesize max_blocksize j :
  isPowerOf2 max_blocksize = Return true ->
  max_blocksize <= filesize ->
  0 <= j < Z.log2 max_blocksize ->
  exists plan,
    listBounds filesize max_blocksize = Return plan /\
    ((exists d, In d plan /\ bs d = 2 ^ j) <->
     Z.testbit filesize j = true).
Proof.
  intros Hp Hle Hj. rewrite listBounds_large_eq by assumption.
  pose proof (accepted_log2 _ Hp) as (Hpos & _ & Hnn).
  pose proof (accepted_pow2 _ Hp) as Hpow.
  eexists. split; [reflexivity |].
  destruct (Z.to_nat (Z.log2 max_blocksize)) as [|k] eqn:Ek; [lia |].
  assert (Hmod : filesize - filesize / max_blocksize * max_blocksize
                 = filesize mod max_blocksize).
  { pose proof (Z.div_mod filesize max_blocksize ltac:(lia)). lia. }
  assert (Hbound : 0 <= filesize mod max_blocksize < 2 ^ Z.of_nat (S k)).
  { rewrite <- Hpow. apply Z.mod_pos_bound. lia. }
  rewrite Hmod.
  pose proof (halving_bits k filesize (filesize mod max_blocksize)
                (Z.to_nat j) Hbound ltac:(lia)) as Hbits.
  rewrite Z2Nat.id in Hbits by lia.
  assert (Hlow : Z.testbit (filesize mod max_blocksize) j
                 = Z.testbit filesize j).
  { rewrite Hpow. apply Z.mod_pow2_bits_low. lia. }
  rewrite <- Hlow, <- Hbits. split.
  - intros (d & [<-|Hin] & Hbs); [| eauto].
    cbn [bs] in Hbs. rewrite Hpow in Hbs. apply Z.pow_inj_r in Hbs; lia.
  - intros (d & Hin & Hbs). exists d. split; [now right | assumption].
Qed.

(** X8.  For a file at least as large as an accepted maximum block size,
    the number of chunks is one more than the number of ones in the binary
    writing of the remainder of the file size by the maximum block size. *)
Theorem listBounds_chunk_count filesize max_blocksize :
  isPowerOf2 max_blocksize = Return true ->
  max_blocksize <= filesize ->
  exists plan,
    listBounds filesize max_blocksize = Return plan /\
    List.length plan = S (ones (filesize mod max_blocksize)).
Proof.
  intros Hp Hle. rewrite listBounds_large_eq by assumption.
  pose proof (accepted_log2 _ Hp) as (Hpos & _ & _).
  pose proof (accepted_pow2 _ Hp) as Hpow.
  eexists. split; [reflexivity |]. cbn [List.length]. f_equal.
  assert (Hmod : filesize - filesize / max_blocksize * max_blocksize
                 = filesize mod max_blocksize).
  { pose proof (Z.div_mod filesize max_blocksize ltac:(lia)). lia. }
  rewrite Hmod.
  destruct (Z.to_nat (Z.log2 max_blocksize)) as [|k].
  - change (2 ^ Z.of_nat 0) with 1 in Hpow. subst max_blocksize.
    now rewrite Z.mod_1_r.
  - apply halving_count. rewrite <- Hpow. apply Z.mod_pos_bound. lia.
Qed.

(** X9.  For a file that is not empty, every chunk of the plan holds at
    least one block, and its block size is positive and at most the
    maximum block size. *)
Theorem listBounds_block_sizes filesize max_blocksize :
  isPowerOf2 max_blocksize = Return true ->
  0 < filesize ->
  exists plan,
    listBounds filesize max_blocksize = Return plan /\
    Forall (fun d => 0 < count d /\ 0 < bs d <= max_blocksize) plan.
Proof.
  intros Hp Hfs. destruct (Z_lt_le_dec filesize max_blocksize) as [Hlt|Hle].
  - rewrite listBounds_small by assumption. eexists. split; [reflexivity |].
    repeat constructor; cbn [count bs]; lia.
  - rewrite listBounds_large by assumption. eexists. split; [reflexivity |].
    pose proof (accepted_pow2 _ Hp) as Hpow.
    apply Forall_forall. intros d Hd.
    apply halving_In in Hd; [| lia].
    destruct Hd as (j & Hj & Hbs & Hc). split; [assumption |].
    rewrite Hbs, Hpow. split; [apply pow2_pos |].
    apply Z.pow_le_mono_r; lia.
Qed.

(** X10.  The chunks of the plan designate as many bytes as the file
    has. *)
Theorem listBounds_total filesize max_blocksize :
  isPowerOf2 max_blocksize = Return true ->
  0 <= filesize ->
  exists plan,
    listBounds filesize max_blocksize = Return plan /\
    covered plan = filesize.
Proof.
  intros Hp Hfs.
  destruct (listBounds_tiles filesize max_blocksize Hp Hfs) as (plan & Hplan & Ht).
  exists plan. split; [assumption |].
  rewrite (tiles_covered _ _ _ Ht). lia.
Qed.

(** X11.  A plan is never empty: also for an empty file, and for a negative
    file size, one [dd] is run. *)
Theorem listBounds_nonempty filesize max_blocksize plan :
  listBounds filesize max_blocksize = Return plan -> plan <> [].
Proof.
  intros Hplan.
  assert (Hp : isPowerOf2 max_blocksize = Return true).
  { unfold listBounds in Hplan.
    destruct (isPowerOf2 max_blocksize) as [[|]|e]; try discriminate.
    reflexivity. }
  destruct (Z_lt_le_dec filesize max_blocksize) as [Hlt|Hle].
  - rewrite listBounds_small in Hplan by assumption. now injection Hplan as <-.
  - rewrite listBounds_large_eq in Hplan by assumption.
    now injection Hplan as <-.
Qed.

End PlanShape.

(** ** Reading and hashing *)

Lemma read_blocks_step n pipe :
  read_blocks n pipe =
  match read n pipe with
  | ([], _) => []
  | (data, rest) => data :: read_blocks n rest
  end.
Proof.
  funelim (read_blocks n pipe);
    match goal with E : read _ _ = _ |- _ => rewrite E end; reflexivity.
Qed.

Lemma read_blocks_bounded n : forall pipe,
  0 < n ->
  Forall (fun data => data <> [] /\ Z.of_nat (List.length data) <= n)
    (read_blocks n pipe) /\
  List.concat (read_blocks n pipe) = pipe.
Proof.
  intros pipe Hn. funelim (read_blocks n pipe);
    match goal with E : read _ _ = _ |- _ =>
      pose proof E as E'; unfold read in E' end;
    rewrite (proj2 (Z.ltb_ge n 0)) in E' by lia;
    injection E' as E1 E2.
  - split; [constructor |].
    destruct (Z.to_nat n) eqn:En; [lia |].
    destruct pipe; [reflexivity | discriminate].
  - match goal with IH : 0 < _ -> _ |- _ => destruct (IH Hn) as [IHb IHc] end.
    split.
    + constructor; [| assumption]. split; [discriminate |].
      rewrite <- E1, length_firstn. lia.
    + cbn [List.concat]. rewrite IHc, <- E1, <- E2. apply firstn_skipn.
Qed.

Section Hashing.
Context `{Hashlib}.

Lemma read_all_blocks s n pipe :
  read_all s n pipe = fold_left update (read_blocks n pipe) s.
Proof.
  funelim (read_all s n pipe); rewrite read_blocks_step;
    match goal with E : read _ _ = _ |- _ => rewrite E end.
  - reflexivity.
  - cbn [fold_left].
    match goal with IH : read_all _ _ _ = fold_left _ _ _ |- _ => exact IH end.
Qed.

(** X12.  With a positive block size the inner loop of [shaPath] calls
    [update] once per block read; no block is empty, none is longer than
    the block size, and together they are the content of the pipe. *)
Theorem read_all_block_by_block s n pipe :
  0 < n ->
  read_all s n pipe = fold_left update (read_blocks n pipe) s /\
  Forall (fun data => data <> [] /\ Z.of_nat (List.length data) <= n)
    (read_blocks n pipe) /\
  List.concat (read_blocks n pipe) = pipe.
Proof.
  intros Hn. split; [apply read_all_blocks |].
  now apply read_blocks_bounded.
Qed.

Context `{MathLib} `{DdTool}.

Lemma shaPath_of_plan path filesize max_blocksize plan :
  listBounds filesize max_blocksize = Return plan ->
  shaPath path filesize max_blocksize =
  Return (sha256_of
            (List.concat
               (map (fun d => consumed (bs d) (stdout (dd path d))) plan))).
Proof.
  intros Hplan. unfold shaPath, sha256_of. rewrite Hplan. cbn [bind].
  now rewrite fold_read_all.
Qed.

(** When [dd] writes what each chunk designates in a file holding [data],
    the digest is that of the first [filesize] bytes of the file. *)
Lemma shaPath_declared path (data : list byte) filesize max_blocksize :
  isPowerOf2 max_blocksize = Return true ->
  0 <= filesize ->
  (forall plan d,
     listBounds filesize max_blocksize = Return plan ->
     In d plan -> stdout (dd path d) = declared_bytes data d) ->
  shaPath path filesize max_blocksize =
  Return (sha256_of (firstn (Z.to_nat filesize) data)).
Proof.
  intros Hp Hfs Hdd.
  destruct (listBounds_tiles filesize max_blocksize Hp Hfs)
    as (plan & Hplan & Ht).
  rewrite (shaPath_of_plan _ _ _ _ Hplan). do 2 f_equal.
  rewrite (map_ext_in _ (declared_bytes data)).
  - rewrite (tiles_declared_bytes data plan 0 _ Ht) by lia.
    now rewrite Z.sub_0_r.
  - intros d Hd. rewrite (Hdd plan d Hplan Hd). unfold consumed.
    destruct (Z.eqb_spec (bs d) 0) as [E|_]; [| reflexivity].
    unfold declared_bytes, byte_length. rewrite E, Z.mul_0_r. reflexivity.
Qed.

(** X13.  When [dd] writes the bytes each chunk designates in a file, the
    digest returned for a declared size is that of the first [filesize]
    bytes of the file; when the declared size is at least the length of the
    file it is the digest of the whole file, without any error. *)
Theorem shaPath_prefix path (data : list byte) filesize max_blocksize :
  isPowerOf2 max_blocksize = Return true ->
  0 <= filesize ->
  (forall plan d,
     listBounds filesize max_blocksize = Return plan ->
     In d plan -> stdout (dd path d) = declared_bytes data d) ->
  shaPath path filesize max_blocksize =
    Return (sha256_of (firstn (Z.to_nat filesize) data)) /\
  (Z.of_nat (List.length data) <= filesize ->
   shaPath path filesize max_blocksize = Return (sha256_of data)).
Proof.
  intros Hp Hfs Hdd.
  pose proof (shaPath_declared path data _ _ Hp Hfs Hdd) as Hsha.
  split; [assumption |]. intros Hlen.
  rewrite Hsha, firstn_all2 by lia. reflexivity.
Qed.

(** X14.  For a declared size of 0 the digest is that of the empty
    message, whatever [dd] writes: the only chunk has block size 0 and
    [read(0)] returns nothing. *)
Theorem shaPath_empty path max_blocksize :
  isPowerOf2 max_blocksize = Return true ->
  shaPath path 0 max_blocksize = Return (sha256_of []).
Proof.
  intros Hp. pose proof (accepted_log2 _ Hp) as (Hpos & _ & _).
  rewrite (shaPath_of_plan path 0 max_blocksize
             [{| skip := 0; count := 1; bs := 0 |}])
    by (now apply listBounds_small).
  reflexivity.
Qed.

End Hashing.

(** ** The script *)

Section Script.
Context `{MathLib} `{Hashlib} `{DdTool} `{Runtime}.

Lemma MAX_BLOCK_SIZE_outcome :
  (exists n, MAX_BLOCK_SIZE = Done n) \/
  MAX_BLOCK_SIZE = Traceback (Core ValueError).
Proof.
  unfold MAX_BLOCK_SIZE, py_int.
  destruct (getenv "MAX_BLOCK_SIZE") as [s|]; [| eauto].
  destruct (int s); eauto.
Qed.

(** X15.  [hash FILENAME] on a file whose size the operating system
    reports, read by a [dd] that writes the bytes each chunk designates,
    prints the digest of the whole file, as the usage text promises. *)
Theorem main_hash_file prog filename (data : list byte) max_blocksize :
  MAX_BLOCK_SIZE = Done max_blocksize ->
  isPowerOf2 max_blocksize = Return true ->
  getsize filename = Some (Z.of_nat (List.length data)) ->
  (forall plan d,
     listBounds (Z.of_nat (List.length data)) max_blocksize = Return plan ->
     In d plan -> stdout (dd filename d) = declared_bytes data d) ->
  main [prog; "hash"%string; filename] = Done [Text (sha256_of data)].
Proof.
  intros Hmax Hp Hsize Hdd. unfold main. rewrite Hmax.
  cbn. unfold os_path_getsize. rewrite Hsize. cbn [run_bind].
  rewrite (shaPath_declared filename data _ _ Hp (Nat2Z.is_nonneg _) Hdd).
  cbn. now rewrite Nat2Z.id, firstn_all.
Qed.

(** X16.  [hash FILENAME SIZE] prints the digest of the first [SIZE] bytes
    and never asks the operating system for the size of [FILENAME]. *)
Theorem main_hash_size prog filename size n (data : list byte) max_blocksize :
  MAX_BLOCK_SIZE = Done max_blocksize ->
  isPowerOf2 max_blocksize = Return true ->
  int size = Some n ->
  0 <= n ->
  (forall plan d,
     listBounds n max_blocksize = Return plan ->
     In d plan -> stdout (dd filename d) = declared_bytes data d) ->
  main [prog; "hash"%string; filename; size] =
  Done [Text (sha256_of (firstn (Z.to_nat n) data))].
Proof.
  intros Hmax Hp Hint Hn Hdd. unfold main. rewrite Hmax.
  cbn. unfold py_int. rewrite Hint. cbn [run_bind].
  now rewrite (shaPath_declared filename data _ _ Hp Hn Hdd).
Qed.

(** X17.  As soon as an argument follows [SIZE], [SIZE] is ignored: the
    run is that of [hash FILENAME]. *)
Theorem main_hash_extra_arguments prog filename size extra more :
  main (prog :: "hash"%string :: filename :: size :: extra :: more) =
  main [prog; "hash"%string; filename].
Proof. unfold main. destruct MAX_BLOCK_SIZE; reflexivity. Qed.

(** X18.  A run ends with [IndexError] exactly when [MAX_BLOCK_SIZE] could
    be read and the command is [size] or [hash] without a file name (or
    [sys.argv] is empty). *)
Theorem main_index_error argv :
  main argv = Traceback IndexError <->
  (exists n, MAX_BLOCK_SIZE = Done n) /\
  (argv = [] \/
   exists prog, argv = [prog; "size"%string] \/ argv = [prog; "hash"%string]).
Proof.
  unfold main.
  destruct MAX_BLOCK_SIZE_outcome as [[n Hmax]|Hmax]; rewrite Hmax;
    cbn [run_bind].
  2: { split; [discriminate | intros [[m Hm] _]; discriminate]. }
  destruct argv as [|prog [|subcommand rest]]; cbn [tl].
  - cbn. split; eauto.
  - cbn. split; [discriminate |].
    intros [_ [E|[p [E|E]]]]; discriminate.
  - destruct (String.eqb_spec subcommand "size") as [->|Hsize].
    { destruct rest as [|path rest]; cbn.
      - split; eauto 6.
      - unfold os_path_getsize. destruct (getsize path); cbn;
          (split; [discriminate |]);
          intros [_ [E|[p [E|E]]]]; discriminate. }
    destruct (String.eqb_spec subcommand "hash") as [->|Hhash].
    { destruct rest as [|filename rest]; cbn [item nth_error run_bind].
      - split; eauto 6.
      - split.
        + intros Hrun. exfalso. revert Hrun.
          destruct rest as [|size rest];
            cbn [List.length item nth_error Nat.eqb];
            [| destruct (_ =? 0)%nat; cbn [run_bind]];
            unfold py_int, os_path_getsize;
            repeat match goal with
              | |- context [match ?o with Some _ => _ | None => _ end] =>
                  destruct o; cbn [run_bind]; [| discriminate]
              end;
            match goal with
              |- context [of_result ?r] => destruct r; discriminate
            end.
        + intros [_ [E|[p [E|E]]]]; discriminate. }
    split; [discriminate |].
    intros [_ [E|[p [E|E]]]]; try discriminate;
      injection E as _ E; congruence.
Qed.

(** X19.  A run prints nothing and ends normally exactly when
    [MAX_BLOCK_SIZE] could be read and the first argument is neither
    [size] nor [hash]: an unknown command is passed over in silence. *)
Theorem main_silent argv :
  main argv = Done [] <->
  (exists n, MAX_BLOCK_SIZE = Done n) /\
  exists prog subcommand rest,
    argv = prog :: subcommand :: rest /\
    subcommand <> "size"%string /\ subcommand <> "hash"%string.
Proof.
  unfold main.
  destruct MAX_BLOCK_SIZE_outcome as [[n Hmax]|Hmax]; rewrite Hmax;
    cbn [run_bind].
  2: { split; [discriminate | intros [[m Hm] _]; discriminate]. }
  destruct argv as [|prog [|subcommand rest]]; cbn [tl].
  - cbn. split; [discriminate | intros (_ & p & s & r & E & _); discriminate].
  - cbn. split; [discriminate | intros (_ & p & s & r & E & _); discriminate].
  - destruct (String.eqb_spec subcommand "size") as [->|Hsize].
    { split; [| intros (_ & p & s & r & E & Hs & _); congruence].
      destruct rest as [|path rest]; cbn; [discriminate |].
      unfold os_path_getsize. destruct (getsize path); discriminate. }
    destruct (String.eqb_spec subcommand "hash") as [->|Hhash].
    { split; [| intros (_ & p & s & r & E & _ & Hh); congruence].
      destruct rest as [|filename rest]; cbn [item nth_error run_bind];
        [discriminate |].
      destruct rest as [|size rest];
        cbn [List.length item nth_error Nat.eqb];
        [| destruct (_ =? 0)%nat; cbn [run_bind]];
        unfold py_int, os_path_getsize;
        repeat match goal with
          | |- context [match ?o with Some _ => _ | None => _ end] =>
              destruct o; cbn [run_bind]; [| discriminate]
          end;
        match goal with
          |- context [of_result ?r] => destruct r; discriminate
        end. }
    split; eauto 10.
Qed.

(** X20.  When [MAX_BLOCK_SIZE] is set to a string that [int] refuses,
    every run ends with [ValueError], also [size] and the usage text. *)
Theorem main_bad_environment argv s :
  getenv "MAX_BLOCK_SIZE" = Some s ->
  int s = None ->
  main argv = Traceback (Core ValueError).
Proof.
  intros Henv Hint. unfold main, MAX_BLOCK_SIZE, py_int.
  now rewrite Henv, Hint.
Qed.

End Script.

(** * Concrete runs *)

(** The doctests of the program, with an exact logarithm. *)

Example isPowerOf2_doctests :
  @isPowerOf2 exact_log 2 = Return true /\
  @isPowerOf2 exact_log 1024 = Return true /\
  @isPowerOf2 exact_log 1025 = Return false.
Proof. repeat split; now vm_compute. Qed.

Example listBounds_doctest_9 :
  @listBounds exact_log 9 1024 = Return [{| skip := 0; count := 1; bs := 9 |}].
Proof. now vm_compute. Qed.

Example listBounds_doctest_1025 :
  @listBounds exact_log 1025 1024 =
  Return [{| skip := 0; count := 1; bs := 1024 |};
          {| skip := 1024; count := 1; bs := 1 |}].
Proof. now vm_compute. Qed.

Example listBounds_doctest_1026 :
  @listBounds exact_log 1026 1024 =
  Return [{| skip := 0; count := 1; bs := 1024 |};
          {| skip := 512; count := 1; bs := 2 |}].
Proof. now vm_compute. Qed.

Example listBounds_doctest_2138934 :
  @listBounds exact_log 2138934 1024 =
  Return [{| skip := 0; count := 2088; bs := 1024 |};
          {| skip := 4176; count := 1; bs := 512 |};
          {| skip := 8354; count := 1; bs := 256 |};
          {| skip := 66840; count := 1; bs := 32 |};
          {| skip := 133682; count := 1; bs := 16 |};
          {| skip := 534732; count := 1; bs := 4 |};
          {| skip := 1069466; count := 1; bs := 2 |}].
Proof. now vm_compute. Qed.

(** A block size of 3 is refused with the power-of-two error. *)
Example listBounds_refuses_3 :
  @listBounds exact_log 10 3 = Raise not_a_power_of_2.
Proof. now vm_compute. Qed.

(** C4.  The number [2 ^ 2955] has exactly one set bit, yet with the
    logarithm rounded as double arithmetic rounds it there [isPowerOf2]
    returns [False]: [2 ** 2954 == x] fails.  With an exact logarithm it
    returns [True]; on 2, 1024 and 1025 the rounded logarithm gives the
    results of the doctests. *)
Theorem isPowerOf2_rounded_logarithm :
  set_bits (Z.to_pos (2 ^ 2955)) = 1%nat /\
  @isPowerOf2 rounding_log (2 ^ 2955) = Return false /\
  @isPowerOf2 exact_log (2 ^ 2955) = Return true /\
  @isPowerOf2 rounding_log 2 = Return true /\
  @isPowerOf2 rounding_log 1024 = Return true /\
  @isPowerOf2 rounding_log 1025 = Return false.
Proof. repeat split; now vm_compute. Qed.

(** The claims at concrete inputs. *)

Lemma listBounds_small_file_witness :
  @isPowerOf2 exact_log 1024 = Return true /\ 9 < 1024 /\
  (@listBounds exact_log 9 1024 =
     Return [{| skip := 0; count := 1; bs := 9 |}] /\
   @listBounds exact_log 0 1024 =
     Return [{| skip := 0; count := 1; bs := 0 |}] /\
   forall i, ~ covers {| skip := 0; count := 1; bs := 0 |} i).
Proof.
  split; [now vm_compute |]. split; [lia |].
  apply (@listBounds_small_file exact_log 9 1024); [now vm_compute | lia].
Defined.

Lemma listBounds_partition_witness :
  @isPowerOf2 exact_log 1024 = Return true /\ 0 <= 2138934 /\
  exists plan,
    @listBounds exact_log 2138934 1024 = Return plan /\
    (forall i, 0 <= i < 2138934 <-> exists d, In d plan /\ covers d i) /\
    (forall n m d1 d2, n <> m ->
       nth_error plan n = Some d1 -> nth_error plan m = Some d2 ->
       forall i, ~ (covers d1 i /\ covers d2 i)).
Proof.
  split; [now vm_compute |]. split; [lia |].
  apply (@listBounds_partition exact_log 2138934 1024); [now vm_compute | lia].
Defined.

Lemma listBounds_ordered_witness :
  @isPowerOf2 exact_log 1024 = Return true /\ 0 <= 1026 /\
  exists plan,
    @listBounds exact_log 1026 1024 = Return plan /\
    StronglySorted offset_lt plan /\
    StronglySorted bs_divides plan /\
    (forall l1 d l2, plan = l1 ++ d :: l2 ->
       byte_offset d = covered l1 /\ (bs d | covered l1)).
Proof.
  split; [now vm_compute |]. split; [lia |].
  apply (@listBounds_ordered exact_log 1026 1024); [now vm_compute | lia].
Defined.

Lemma listBounds_length_witness :
  @isPowerOf2 exact_log 1024 = Return true /\ 0 <= 2138934 /\
  exists plan,
    @listBounds exact_log 2138934 1024 = Return plan /\
    Z.of_nat (List.length plan) <= Z.log2 1024 + 1.
Proof.
  split; [now vm_compute |]. split; [lia |].
  apply (@listBounds_length exact_log 2138934 1024); [now vm_compute | lia].
Defined.

Lemma while_bytes_left_exhausted_witness :
  @isPowerOf2 exact_log 1024 = Return true /\ 0 <= 1025 /\ 5 <> 0 /\
  (while_bytes_left 1025 [] 5 0 = Raise ZeroDivisionError /\
   exists st,
     while_bytes_left 1025 [] 1025 1024 = Return st /\ st_bytes_left st = 0).
Proof.
  split; [now vm_compute |]. split; [lia |]. split; [lia |].
  apply (@while_bytes_left_exhausted exact_log 1025 1024 [] 5);
    [now vm_compute | lia | lia].
Defined.

Lemma isPowerOf2_domain_error_witness :
  -4 <= 0 /\
  (@isPowerOf2 exact_log (-4) = Raise ValueError /\
   @isPowerOf2 exact_log (-4) <> Return false /\
   @listBounds exact_log 10 (-4) = Raise ValueError /\
   @listBounds exact_log 10 0 = Raise ValueError /\
   @listBounds exact_log 10 0 <> Raise not_a_power_of_2).
Proof.
  split; [lia |]. apply (@isPowerOf2_domain_error exact_log (-4) 10). lia.
Defined.

Lemma shaPath_direct_witness :
  @isPowerOf2 exact_log 4 = Return true /\
  (forall plan d,
     @listBounds exact_log (Z.of_nat (List.length sample_file)) 4 = Return plan ->
     In d plan ->
     stdout (@dd (dd_on_file sample_file) "sample" d) =
     declared_bytes sample_file d) /\
  @shaPath exact_log transcript (dd_on_file sample_file) "sample"
    (Z.of_nat (List.length sample_file)) 4 =
  Return (@sha256_of transcript sample_file).
Proof.
  assert (Hdd : forall plan d,
     @listBounds exact_log (Z.of_nat (List.length sample_file)) 4 = Return plan ->
     In d plan ->
     stdout (@dd (dd_on_file sample_file) "sample" d) =
     declared_bytes sample_file d).
  { intros plan d Hplan Hin. vm_compute in Hplan. injection Hplan as <-.
    simpl in Hin. destruct Hin as [<-|[<-|[<-|[]]]]; reflexivity. }
  split; [now vm_compute |]. split; [exact Hdd |].
  apply (@shaPath_direct exact_log transcript (dd_on_file sample_file));
    [now vm_compute | exact Hdd].
Defined.

Lemma shaPath_hashes_what_dd_wrote_witness :
  @isPowerOf2 exact_log 1024 = Return true /\
  exists plan,
    @listBounds exact_log 1025 1024 = Return plan /\
    @shaPath exact_log transcript dd_unreadable "/dev/sda" 1025 1024 =
    Return (@sha256_of transcript
              (List.concat
                 (map (fun d =>
                         consumed (bs d)
                           (stdout (@dd dd_unreadable "/dev/sda" d)))
                    plan))).
Proof.
  split; [now vm_compute |].
  apply (@shaPath_hashes_what_dd_wrote exact_log transcript dd_unreadable).
  now vm_compute.
Defined.

(** C6, as stated, fails: every [dd] run over an unreadable device exits
    with status 1 and writes none of the 1025 bytes asked for, and [shaPath]
    still returns a digest, that of the empty message, instead of raising
    an error. *)
Lemma shaPath_unreadable_device_yields_digest :
  (forall d, returncode (@dd dd_unreadable "/dev/sda" d) = 1 /\
             stdout (@dd dd_unreadable "/dev/sda" d) = []) /\
  @listBounds exact_log 1025 1024 =
    Return [{| skip := 0; count := 1; bs := 1024 |};
            {| skip := 1024; count := 1; bs := 1 |}] /\
  @shaPath exact_log transcript dd_unreadable "/dev/sda" 1025 1024 =
    Return (@sha256_of transcript []) /\
  forall e,
    @shaPath exact_log transcript dd_unreadable "/dev/sda" 1025 1024 <> Raise e.
Proof.
  assert (E : @shaPath exact_log transcript dd_unreadable "/dev/sda" 1025 1024
              = Return (@sha256_of transcript [])) by now vm_compute.
  split; [intros d; split; reflexivity |].
  split; [now vm_compute |].
  split; [exact E |].
  intros e. rewrite E. discriminate.
Defined.

(** The further properties at concrete inputs. *)

Lemma isPowerOf2_refuses_witness :
  set_bits 1025 <> 1%nat /\ @isPowerOf2 exact_log 1025 = Return false.
Proof.
  split; [vm_compute; discriminate |].
  apply (@isPowerOf2_refuses exact_log 1025). vm_compute. discriminate.
Defined.

Lemma listBounds_refuses_witness :
  set_bits 1000 <> 1%nat /\
  @listBounds exact_log 5000 1000 = Raise not_a_power_of_2.
Proof.
  split; [vm_compute; discriminate |].
  apply (@listBounds_refuses exact_log 5000 1000). vm_compute. discriminate.
Defined.

Lemma listBounds_failures_witness :
  @listBounds exact_log 10 3 = Raise not_a_power_of_2 /\
  ((3 <= 0 /\ not_a_power_of_2 = ValueError) \/
   (0 < 3 /\ @isPowerOf2 exact_log 3 = Return false /\
    not_a_power_of_2 = not_a_power_of_2)).
Proof.
  split; [now vm_compute |].
  apply (@listBounds_failures exact_log 10 3 not_a_power_of_2).
  now vm_compute.
Defined.

Lemma while_bytes_left_returns_witness :
  (10 = 0 \/ 3 <> 0) /\
  exists st, while_bytes_left 10 [] 10 3 = Return st /\ st_bytes_left st = 0.
Proof.
  split; [right; lia |].
  apply (while_bytes_left_returns 10 [] 10 3). right. lia.
Defined.

Lemma listBounds_large_file_witness :
  @isPowerOf2 exact_log 1024 = Return true /\ 1024 <= 2138934 /\
  exists rest,
    @listBounds exact_log 2138934 1024 =
      Return ({| skip := 0; count := 2138934 / 1024; bs := 1024 |} :: rest) /\
    Forall (fun d => count d = 1 /\ bs d < 1024) rest.
Proof.
  split; [now vm_compute |]. split; [lia |].
  apply (@listBounds_large_file exact_log 2138934 1024);
    [now vm_compute | lia].
Defined.

Lemma listBounds_exact_multiple_witness :
  @isPowerOf2 exact_log 1024 = Return true /\ 0 < 3 /\
  @listBounds exact_log (3 * 1024) 1024 =
  Return [{| skip := 0; count := 3; bs := 1024 |}].
Proof.
  split; [now vm_compute |]. split; [lia |].
  apply (@listBounds_exact_multiple exact_log 3 1024); [now vm_compute | lia].
Defined.

Lemma listBounds_binary_digits_witness :
  @isPowerOf2 exact_log 1024 = Return true /\ 1024 <= 1026 /\
  0 <= 1 < Z.log2 1024 /\
  exists plan,
    @listBounds exact_log 1026 1024 = Return plan /\
    ((exists d, In d plan /\ bs d = 2 ^ 1) <-> Z.testbit 1026 1 = true).
Proof.
  split; [now vm_compute |]. split; [lia |].
  split; [now vm_compute |].
  apply (@listBounds_binary_digits exact_log 1026 1024 1);
    [now vm_compute | lia | now vm_compute].
Defined.

Lemma listBounds_chunk_count_witness :
  @isPowerOf2 exact_log 1024 = Return true /\ 1024 <= 2138934 /\
  exists plan,
    @listBounds exact_log 2138934 1024 = Return plan /\
    List.length plan = S (ones (2138934 mod 1024)).
Proof.
  split; [now vm_compute |]. split; [lia |].
  apply (@listBounds_chunk_count exact_log 2138934 1024);
    [now vm_compute | lia].
Defined.

Lemma listBounds_block_sizes_witness :
  @isPowerOf2 exact_log 1024 = Return true /\ 0 < 1026 /\
  exists plan,
    @listBounds exact_log 1026 1024 = Return plan /\
    Forall (fun d => 0 < count d /\ 0 < bs d <= 1024) plan.
Proof.
  split; [now vm_compute |]. split; [lia |].
  apply (@listBounds_block_sizes exact_log 1026 1024); [now vm_compute | lia].
Defined.

Lemma listBounds_total_witness :
  @isPowerOf2 exact_log 1024 = Return true /\ 0 <= 2138934 /\
  exists plan,
    @listBounds exact_log 2138934 1024 = Return plan /\
    covered plan = 2138934.
Proof.
  split; [now vm_compute |]. split; [lia |].
  apply (@listBounds_total exact_log 2138934 1024); [now vm_compute | lia].
Defined.

Lemma listBounds_nonempty_witness :
  @listBounds exact_log 0 1024 = Return [{| skip := 0; count := 1; bs := 0 |}] /\
  [{| skip := 0; count := 1; bs := 0 |}] <> [].
Proof.
  split; [now vm_compute |].
  apply (@listBounds_nonempty exact_log 0 1024). now vm_compute.
Defined.

Lemma read_all_block_by_block_witness :
  0 < 4 /\
  (@read_all transcript [] 4 sample_file =
     fold_left (@update transcript) (read_blocks 4 sample_file) [] /\
   Forall (fun data => data <> [] /\ Z.of_nat (List.length data) <= 4)
     (read_blocks 4 sample_file) /\
   List.concat (read_blocks 4 sample_file) = sample_file).
Proof.
  split; [lia |].
  apply (@read_all_block_by_block transcript [] 4 sample_file). lia.
Defined.

Lemma shaPath_prefix_witness :
  @isPowerOf2 exact_log 4 = Return true /\ 0 <= 5 /\
  (forall plan d,
     @listBounds exact_log 5 4 = Return plan ->
     In d plan ->
     stdout (@dd (dd_on_file sample_file) "sample" d) =
     declared_bytes sample_file d) /\
  (@shaPath exact_log transcript (dd_on_file sample_file) "sample" 5 4 =
     Return (@sha256_of transcript (firstn (Z.to_nat 5) sample_file)) /\
   (Z.of_nat (List.length sample_file) <= 5 ->
    @shaPath exact_log transcript (dd_on_file sample_file) "sample" 5 4 =
      Return (@sha256_of transcript sample_file))).
Proof.
  assert (Hdd : forall plan d,
     @listBounds exact_log 5 4 = Return plan ->
     In d plan ->
     stdout (@dd (dd_on_file sample_file) "sample" d) =
     declared_bytes sample_file d).
  { intros plan d Hplan Hin. vm_compute in Hplan. injection Hplan as <-.
    simpl in Hin. destruct Hin as [<-|[<-|[]]]; reflexivity. }
  split; [now vm_compute |]. split; [lia |]. split; [exact Hdd |].
  apply (@shaPath_prefix transcript exact_log (dd_on_file sample_file));
    [now vm_compute | lia | exact Hdd].
Defined.

Lemma shaPath_empty_witness :
  @isPowerOf2 exact_log 1024 = Return true /\
  @shaPath exact_log transcript (dd_on_file sample_file) "sample" 0 1024 =
  Return (@sha256_of transcript []).
Proof.
  split; [now vm_compute |].
  apply (@shaPath_empty transcript exact_log (dd_on_file sample_file)
           "sample"%string 1024).
  now vm_compute.
Defined.

Lemma main_hash_file_witness :
  @MAX_BLOCK_SIZE sample_runtime = Done 4 /\
  @isPowerOf2 exact_log 4 = Return true /\
  @getsize sample_runtime "sample" = Some (Z.of_nat (List.length sample_file)) /\
  (forall plan d,
     @listBounds exact_log (Z.of_nat (List.length sample_file)) 4 = Return plan ->
     In d plan ->
     stdout (@dd (dd_on_file sample_file) "sample" d) =
     declared_bytes sample_file d) /\
  @main exact_log transcript (dd_on_file sample_file) sample_runtime
    ["shaall.py"; "hash"; "sample"]%string =
  Done [Text (@sha256_of transcript sample_file)].
Proof.
  assert (Hdd : forall plan d,
     @listBounds exact_log (Z.of_nat (List.length sample_file)) 4 = Return plan ->
     In d plan ->
     stdout (@dd (dd_on_file sample_file) "sample" d) =
     declared_bytes sample_file d).
  { intros plan d Hplan Hin. vm_compute in Hplan. injection Hplan as <-.
    simpl in Hin. destruct Hin as [<-|[<-|[<-|[]]]]; reflexivity. }
  split; [now vm_compute |]. split; [now vm_compute |].
  split; [now vm_compute |]. split; [exact Hdd |].
  apply (@main_hash_file exact_log transcript (dd_on_file sample_file)
           sample_runtime "shaall.py" "sample" sample_file 4);
    [now vm_compute | now vm_compute | now vm_compute | exact Hdd].
Defined.

Lemma main_hash_size_witness :
  @MAX_BLOCK_SIZE sample_runtime = Done 4 /\
  @isPowerOf2 exact_log 4 = Return true /\
  @int sample_runtime "5" = Some 5 /\ 0 <= 5 /\
  (forall plan d,
     @listBounds exact_log 5 4 = Return plan ->
     In d plan ->
     stdout (@dd (dd_on_file sample_file) "/dev/sda" d) =
     declared_bytes sample_file d) /\
  @main exact_log transcript (dd_on_file sample_file) sample_runtime
    ["shaall.py"; "hash"; "/dev/sda"; "5"]%string =
  Done [Text (@sha256_of transcript (firstn (Z.to_nat 5) sample_file))].
Proof.
  assert (Hdd : forall plan d,
     @listBounds exact_log 5 4 = Return plan ->
     In d plan ->
     stdout (@dd (dd_on_file sample_file) "/dev/sda" d) =
     declared_bytes sample_file d).
  { intros plan d Hplan Hin. vm_compute in Hplan. injection Hplan as <-.
    simpl in Hin. destruct Hin as [<-|[<-|[]]]; reflexivity. }
  split; [now vm_compute |]. split; [now vm_compute |].
  split; [now vm_compute |]. split; [lia |]. split; [exact Hdd |].
  apply (@main_hash_size exact_log transcript (dd_on_file sample_file)
           sample_runtime "shaall.py" "/dev/sda" "5" 5 sample_file 4);
    [now vm_compute | now vm_compute | now vm_compute | lia | exact Hdd].
Defined.

Lemma main_bad_environment_witness :
  @getenv misconfigured_runtime "MAX_BLOCK_SIZE" = Some "1M"%string /\
  @int misconfigured_runtime "1M" = None /\
  @main exact_log transcript dd_unreadable misconfigured_runtime
    ["shaall.py"; "size"; "sample"]%string =
  Traceback (Core ValueError).
Proof.
  split; [now vm_compute |]. split; [now vm_compute |].
  apply (@main_bad_environment exact_log transcript dd_unreadable
           misconfigured_runtime _ "1M"%string); now vm_compute.
Defined.
